(** * Markdown to APA PDF converters: a shallow embedding

    The repository holds two converters of one Markdown document into an
    APA-styled PDF:

    - [knowledge/convert_to_apa_pdf.py], which rewrites the Markdown and
      hands it to an HTML/CSS renderer ([Html] below);
    - [knowledge/convert_to_apa_pdf_simple.py], which draws the text itself
      on an FPDF canvas ([Simple] below).

    Python strings are sequences of Unicode code points; they are modelled
    as lists of code points ([str]).  The string methods the two scripts
    call are defined in [Py].  The FPDF canvas is an external collaborator:
    the model records the calls the script issues to it, in order, as a list
    of [op]s, and takes every call to return normally. *)

From Stdlib Require QArith_base.
From Stdlib Require Import String Ascii ZArith NArith Arith Bool List Lia.
Import ListNotations.

(** ** Python strings *)

Module Py.

Definition char := N.
Definition str := list char.

Definition char_eqb (a b : char) : bool := N.eqb a b.

(** Decoding of the UTF-8 bytes of a literal of this file into code points
    ([need] continuation bytes are still expected, [acc] holds the bits read
    so far).  Only used to write the literals of the scripts legibly. *)
Fixpoint utf8_go (need : nat) (acc : N) (bs : list N) : str :=
  match bs with
  | [] => []
  | b :: bs' =>
    match need with
    | O =>
      if b <? 0x80 then b :: utf8_go 0 0 bs'
      else if b <? 0xE0 then utf8_go 1 (N.land b 0x1F) bs'
      else if b <? 0xF0 then utf8_go 2 (N.land b 0x0F) bs'
      else utf8_go 3 (N.land b 0x07) bs'
    | S O => (acc * 64 + N.land b 0x3F) :: utf8_go 0 0 bs'
    | S k => utf8_go k (acc * 64 + N.land b 0x3F) bs'
    end
  end%N.

Definition utf8 (s : string) : str :=
  utf8_go 0 0 (map N_of_ascii (list_ascii_of_string s)).

(** [s.startswith(p)] *)
Fixpoint startswith (p s : str) : bool :=
  match p with
  | [] => true
  | x :: p' =>
    match s with
    | [] => false
    | y :: s' => char_eqb x y && startswith p' s'
    end
  end.

(** [s.partition(sep)], as an option: the text before the leftmost
    occurrence of [sep] and the text after it, [None] when [sep] does not
    occur. *)
Fixpoint partition (sep s : str) : option (str * str) :=
  match s with
  | [] => if startswith sep [] then Some ([], []) else None
  | c :: s' =>
    if startswith sep s then Some ([], skipn (length sep) s)
    else match partition sep s' with
         | Some (b, a) => Some (c :: b, a)
         | None => None
         end
  end.

(** [sub in s] *)
Definition contains (sub s : str) : bool :=
  match partition sub s with Some _ => true | None => false end.

(** [s.split(sep)] for a non-empty [sep]: cut at the leftmost occurrence,
    then go on in the rest.  Every cut removes at least one code point, so
    [length s] rounds are enough (see [split_eq]). *)
Fixpoint split_fuel (fuel : nat) (sep s : str) : list str :=
  match partition sep s with
  | None => [s]
  | Some (b, a) =>
    match fuel with
    | O => [s]
    | S f => b :: split_fuel f sep a
    end
  end.

Definition split (sep s : str) : list str := split_fuel (length s) sep s.

(** [s.replace(old, new)] for a non-empty [old]: occurrences are found
    left to right and do not overlap. *)
Fixpoint replace_fuel (fuel : nat) (old new s : str) : str :=
  match partition old s with
  | None => s
  | Some (b, a) =>
    match fuel with
    | O => s
    | S f => b ++ new ++ replace_fuel f old new a
    end
  end.

Definition replace (old new s : str) : str :=
  replace_fuel (length s) old new s.

(** [sep.join(parts)] *)
Fixpoint join (sep : str) (parts : list str) : str :=
  match parts with
  | [] => []
  | [p] => p
  | p :: rest => p ++ sep ++ join sep rest
  end.

(** [c.isspace()]: the code points Python's [str.strip()] removes. *)
Definition isspace (c : char) : bool :=
  (((0x09 <=? c) && (c <=? 0x0D)) || ((0x1C <=? c) && (c <=? 0x20))
  || (c =? 0x85) || (c =? 0xA0) || (c =? 0x1680)
  || ((0x2000 <=? c) && (c <=? 0x200A))
  || (c =? 0x2028) || (c =? 0x2029) || (c =? 0x202F) || (c =? 0x205F)
  || (c =? 0x3000))%N.

Fixpoint lstrip (s : str) : str :=
  match s with
  | [] => []
  | c :: s' => if isspace c then lstrip s' else s
  end.

Definition rstrip (s : str) : str := rev (lstrip (rev s)).

(** [s.strip()] *)
Definition strip (s : str) : str := rstrip (lstrip s).

(** [s[i:j]] for [0 <= i <= j] *)
Definition slice (i j : nat) (s : str) : str := firstn (j - i) (skipn i s).

(** Truth value of a string in a condition: non-empty. *)
Definition truthy (s : str) : bool :=
  match s with [] => false | _ :: _ => true end.

(** [range(0, stop, step)] for [step > 0] *)
Definition range_step (stop step : nat) : list nat :=
  map (fun k => k * step) (seq 0 ((stop + step - 1) / step)).

End Py.

Import Py.

Arguments utf8 : simpl never.


(** [enumerate(l)] *)
Definition enumerate {A} (l : list A) : list (nat * A) :=
  combine (seq 0 (length l)) l.

(** [re.sub(r'[cls]', repl, s)]: every code point of the class [cls] is
    replaced by [repl]. *)
Definition re_sub_class (cls repl s : str) : str :=
  flat_map (fun c => if existsb (char_eqb c) cls then repl else [c]) s.

(** The line separator the scripts split the document on. *)
Definition nl : str := [10%N].

(** The double quote, for the literals that contain one. *)
Definition dq : str := [34%N].

(** ** Metadata

    The HTML variant keeps the five fields in local variables, the
    direct-layout variant in a dict with five fixed keys; both start
    empty. *)

Record metadata := Metadata {
  title : str;
  author : str;
  student_id : str;
  course : str;
  date : str
}.

Definition empty_metadata : metadata := Metadata [] [] [] [] [].

(** ** The FPDF canvas: the calls the direct-layout script issues *)

Inductive op :=
| add_page
| set_font (family style : string) (size : N)
| set_auto_page_break (auto : bool) (margin : QArith_base.Q)
| set_fill_color (r g b : N)
| ln (h : option N)
| cell (w h : N) (txt : str) (border ln_after : N) (align : string)
| multi_cell (w h : N) (txt : str) (border : N) (align : string) (fill : bool)
| write (h : N) (txt : str)
| set_page_num_started (b : bool).

(** ** knowledge/convert_to_apa_pdf_simple.py *)

Module Simple.

(** [replacements] of [clean_text], in the insertion order of the dict. *)
Definition replacements : list (str * str) :=
  [ (utf8 "Σ", utf8 "Sigma"); (utf8 "α", utf8 "alpha"); (utf8 "β", utf8 "beta");
    (utf8 "γ", utf8 "gamma"); (utf8 "Δ", utf8 "Delta"); (utf8 "∈", utf8 "en");
    (utf8 "∪", utf8 "U"); (utf8 "→", utf8 "->"); (utf8 "≤", utf8 "<=");
    (utf8 "≥", utf8 ">="); (utf8 "∞", utf8 "infinito"); (utf8 "√", utf8 "raiz");
    (utf8 "×", utf8 "x"); (utf8 "÷", utf8 "/"); (utf8 "≠", utf8 "!=");
    (utf8 "≈", utf8 "~"); (utf8 "á", utf8 "a"); (utf8 "é", utf8 "e");
    (utf8 "í", utf8 "i"); (utf8 "ó", utf8 "o"); (utf8 "ú", utf8 "u");
    (utf8 "ñ", utf8 "n"); (utf8 "Á", utf8 "A"); (utf8 "É", utf8 "E");
    (utf8 "Í", utf8 "I"); (utf8 "Ó", utf8 "O"); (utf8 "Ú", utf8 "U");
    (utf8 "Ñ", utf8 "N") ].

Definition clean_text (text : str) : str :=
  fold_left (fun text '(old, new) => replace old new text) replacements text.

(** One round of the metadata loop of [process_document]. *)
Definition scan_line (m : metadata) (line : str) : metadata :=
  if startswith (utf8 "# ") line then
    Metadata (strip (replace (utf8 "# ") [] line))
             (author m) (student_id m) (course m) (date m)
  else if contains (utf8 "**Estudiante:**") line then
    Metadata (title m) (strip (nth 1 (split (utf8 "**Estudiante:**") line) []))
             (student_id m) (course m) (date m)
  else if contains (utf8 "**Clave Unica:**") line then
    Metadata (title m) (author m)
             (strip (nth 1 (split (utf8 "**Clave Unica:**") line) []))
             (course m) (date m)
  else if contains (utf8 "**Materia:**") line then
    Metadata (title m) (author m) (student_id m)
             (strip (nth 1 (split (utf8 "**Materia:**") line) [])) (date m)
  else if contains (utf8 "**Fecha:**") line then
    Metadata (title m) (author m) (student_id m) (course m)
             (strip (nth 1 (split (utf8 "**Fecha:**") line) []))
  else m.

(** [process_document], from the contents of the input file. *)
Definition process_document (content : str) : metadata * list str :=
  let content := clean_text content in
  let lines := split nl content in
  let metadata := fold_left scan_line (firstn 10 lines) empty_metadata in
  (metadata, lines).

(** The variables of the body loop of [create_apa_pdf]
    ([current_section] is set once and never used). *)
Record loop_state := LoopState {
  skip_header : bool;
  in_code_block : bool;
  code_buffer : list str;
  in_table : bool;
  table_data : list str
}.

Definition initial_state : loop_state := LoopState true false [] false [].

(** The character class of the [re.sub] of the loop. *)
Definition emoji_class : str := utf8 "🎯📚🐍🔍📊🛠️🔬🔄📝🔗💭✅❌".

(** [re.sub(r'[...]', '', line)] of the loop. *)
Definition clean_emojis (line : str) : str := re_sub_class emoji_class [] line.

(** Closing fence: the buffered lines are drawn, each cut to 70 code
    points. *)
Definition emit_code (code_buffer : list str) : list op :=
  match code_buffer with
  | [] => []
  | _ :: _ =>
    [set_font "Courier" "" 10; set_fill_color 245 245 245]
    ++ map (fun code_line =>
              let clean_line :=
                if truthy code_line then firstn 70 code_line else [] in
              multi_cell 0 5 clean_line 0 "L" true) code_buffer
    ++ [set_fill_color 255 255 255]
  end.

(** The cells drawn for one buffered table row. *)
Definition emit_row (row : str) : list op :=
  let cells := map strip (removelast (tl (split (utf8 "|") row))) in
  map (fun cell_ => cell 60 8 (firstn 20 cell_) 1 0 "C") (firstn 3 cells)
  ++ [ln None].

(** End of a table: at most five of the buffered rows are drawn. *)
Definition emit_table (table_data : list str) : list op :=
  match table_data with
  | [] => []
  | _ :: _ =>
    set_font "Times" "" 10 :: flat_map emit_row (firstn 5 table_data)
  end.

(** [text[i:i+180] for i in range(0, len(text), 180)] *)
Definition chunks (text : str) : list str :=
  map (fun i => slice i (i + 180) text) (range_step (length text) 180).

(** A paragraph line with [**]: the parts between the delimiters are
    written alternately in regular and bold face. *)
Definition emit_inline (text : str) : list op :=
  flat_map (fun '(j, part) =>
              set_font "Times" (if Nat.even j then "" else "B") 12
              :: (if truthy part then [write 10 part] else []))
           (enumerate (split (utf8 "**") text))
  ++ [ln (Some 10%N)].

(** The APA indent: four spaces before a line that is not a list item or
    a quotation. *)
Definition apa_indent (line : str) : str :=
  if negb (startswith (utf8 "-") line) && negb (startswith (utf8 "*") line)
     && negb (startswith (utf8 ">") line)
  then utf8 "    " ++ line else line.

(** A paragraph line without [**]. *)
Definition emit_plain (line : str) : list op :=
  let text := apa_indent line in
  if 200 <? length text then
    flat_map (fun chunk =>
                if truthy (strip chunk) then [multi_cell 0 10 chunk 0 "L" false]
                else [])
             (chunks text)
  else [multi_cell 0 10 text 0 "L" false].

(** The heading / rule / paragraph chain at the end of the loop body. *)
Definition emit_line (line : str) : list op :=
  if startswith (utf8 "## ") line then
    let heading := strip (skipn 3 line) in
    [ln (Some 5%N); set_font "Times" "B" 14; multi_cell 0 10 heading 0 "C" false;
     ln (Some 3%N); set_font "Times" "" 12]
  else if startswith (utf8 "### ") line then
    let heading := strip (skipn 4 line) in
    [ln (Some 3%N); set_font "Times" "B" 13; multi_cell 0 10 heading 0 "L" false;
     ln (Some 2%N); set_font "Times" "" 12]
  else if startswith (utf8 "#### ") line then
    let heading := strip (skipn 5 line) in
    [ln (Some 2%N); set_font "Times" "BI" 12;
     multi_cell 0 10 (utf8 "    " ++ heading) 0 "L" false;
     ln (Some 2%N); set_font "Times" "" 12]
  else if startswith (utf8 "---") line then [ln (Some 5%N)]
  else if truthy (strip line) then
    if contains (utf8 "**") line then emit_inline line else emit_plain line
  else [].

(** One round of the body loop: the new values of the loop variables and
    the canvas calls issued. *)
Definition loop_body (st : loop_state) (line : str) : loop_state * list op :=
  if skip_header st
     && negb (contains (utf8 "## 🎯 Objetivo") line
              || contains (utf8 "## Objetivo") line)
  then (st, [])
  else
    let line := clean_emojis line in
    if startswith (utf8 "```") (strip line) then
      if in_code_block st then
        (LoopState false false [] (in_table st) (table_data st),
         emit_code (code_buffer st))
      else
        (LoopState false true (code_buffer st) (in_table st) (table_data st),
         [ln (Some 2%N)])
    else if in_code_block st then
      (LoopState false true (code_buffer st ++ [line]) (in_table st)
                 (table_data st), [])
    else if contains (utf8 "|") line && contains (utf8 "---") line then
      (LoopState false false (code_buffer st) true (table_data st), [])
    else if in_table st && contains (utf8 "|") line then
      (LoopState false false (code_buffer st) true (table_data st ++ [line]), [])
    else if in_table st && negb (contains (utf8 "|") line) then
      (LoopState false false (code_buffer st) false [],
       emit_table (table_data st) ++ emit_line line)
    else
      (LoopState false false (code_buffer st) (in_table st) (table_data st),
       emit_line line).

Fixpoint body_loop (st : loop_state) (lines : list str)
  : loop_state * list op :=
  match lines with
  | [] => (st, [])
  | line :: rest =>
    let (st1, out1) := loop_body st line in
    let (st2, out2) := body_loop st1 rest in
    (st2, out1 ++ out2)
  end.

Definition abstract_text : str :=
  utf8 "Este trabajo de investigacion analiza la gramatica del lenguaje de programacion Python para determinar su clasificacion dentro de la jerarquia de Chomsky. Se examina especificamente si Python es un lenguaje libre de contexto o sensible al contexto, con enfoque particular en el rol de la indentacion significativa. A traves del analisis teorico y practico, se demuestra que Python requiere una gramatica sensible al contexto (Tipo 1 en la jerarquia de Chomsky) debido a su sistema de indentacion, lo cual tiene implicaciones importantes para el diseno de compiladores y la complejidad computacional del analisis sintactico.".

(** Title page and abstract page, up to the page the body starts on. *)
Definition front_matter (metadata : metadata) : list op :=
  let title_clean :=
    strip (replace (utf8 "📚") [] (replace (utf8 "🎯") [] (title metadata))) in
  let course_text :=
    replace (utf8 "COM-11113 ") (utf8 "COM-11113" ++ nl) (course metadata) in
  [ add_page;
    set_font "Times" "" 12;
    set_auto_page_break true (QArith_base.Qmake 254%Z 10%positive);
    ln (Some 50%N);
    set_font "Times" "B" 16;
    multi_cell 0 10 title_clean 0 "C" false;
    ln (Some 40%N);
    set_font "Times" "B" 12;
    cell 0 10 (author metadata) 0 1 "C";
    ln (Some 5%N);
    set_font "Times" "" 12;
    cell 0 10 (utf8 "Clave Unica: " ++ student_id metadata) 0 1 "C";
    ln (Some 5%N);
    cell 0 10 (utf8 "Universidad Nacional Autonoma de Mexico") 0 1 "C";
    ln (Some 5%N);
    multi_cell 0 10 course_text 0 "C" false;
    ln (Some 5%N);
    cell 0 10 (date metadata) 0 1 "C";
    add_page;
    set_page_num_started true;
    set_font "Times" "B" 14;
    cell 0 10 (utf8 "Resumen") 0 1 "C";
    ln (Some 5%N);
    set_font "Times" "" 12;
    multi_cell 0 10 abstract_text 0 "J" false;
    ln (Some 5%N);
    set_font "Times" "B" 12;
    write 10 (utf8 "Palabras clave: ");
    set_font "Times" "I" 12;
    write 10 (utf8 "Python, gramatica sensible al contexto, jerarquia de Chomsky, indentacion, analisis sintactico");
    add_page ].

Definition referencias : list str :=
  [ utf8 "Chomsky, N. (1959). On certain formal properties of grammars. Information and Control, 2(2), 137-167.";
    [];
    utf8 "Hopcroft, J. E., & Ullman, J. D. (1979). Introduction to automata theory, languages, and computation. Addison-Wesley.";
    [];
    utf8 "Python Software Foundation. (2024). The Python Language Reference. https://docs.python.org/3/reference/";
    [];
    utf8 "Sipser, M. (2013). Introduction to the theory of computation (3ra ed.). Cengage Learning.";
    [];
    utf8 "Van Rossum, G., & Drake, F. L. (2021). Python Language Reference Manual (PEP 617). Python Software Foundation." ].

(** The final section: a new page, the heading and the entries. *)
Definition references_section : list op :=
  [ add_page;
    set_font "Times" "B" 14;
    cell 0 10 (utf8 "Referencias") 0 1 "C";
    ln (Some 5%N);
    set_font "Times" "" 12 ]
  ++ map (fun ref => if truthy ref then multi_cell 0 10 ref 0 "J" false
                     else ln (Some 5%N)) referencias.

(** [create_apa_pdf], from the contents of the input file: the calls made
    on the canvas before [pdf.output]. *)
Definition create_apa_pdf (content : str) : list op :=
  let (metadata, lines) := process_document content in
  front_matter metadata
  ++ snd (body_loop initial_state lines)
  ++ references_section.

End Simple.

(** ** knowledge/convert_to_apa_pdf.py *)

Module Html.

(** One round of the metadata loop of [process_markdown_for_apa]. *)
Definition scan_line (m : metadata) (line : str) : metadata :=
  if startswith (utf8 "# ") line then
    Metadata (strip (replace (utf8 "# ") [] line))
             (author m) (student_id m) (course m) (date m)
  else if contains (utf8 "**Estudiante:**") line then
    Metadata (title m) (strip (nth 1 (split (utf8 "**Estudiante:**") line) []))
             (student_id m) (course m) (date m)
  else if contains (utf8 "**Clave Única:**") line then
    Metadata (title m) (author m)
             (strip (nth 1 (split (utf8 "**Clave Única:**") line) []))
             (course m) (date m)
  else if contains (utf8 "**Materia:**") line then
    Metadata (title m) (author m) (student_id m)
             (strip (nth 1 (split (utf8 "**Materia:**") line) [])) (date m)
  else if contains (utf8 "**Fecha:**") line then
    Metadata (title m) (author m) (student_id m) (course m)
             (strip (nth 1 (split (utf8 "**Fecha:**") line) []))
  else m.

Definition apa_content (m : metadata) : str :=
  let title := title m in
  let author := author m in
  let student_id := student_id m in
  let course := course m in
  let date := date m in
  nl
  ++ utf8 "<div class=" ++ dq ++ utf8 "title-page" ++ dq ++ utf8 ">" ++ nl
  ++ utf8 "    <div class=" ++ dq ++ utf8 "running-head" ++ dq ++ utf8 ">LA GRAMÁTICA DE PYTHON</div>" ++ nl
  ++ utf8 "    <div class=" ++ dq ++ utf8 "main-title" ++ dq ++ utf8 ">" ++ title ++ utf8 "</div>" ++ nl
  ++ utf8 "    <div class=" ++ dq ++ utf8 "author-info" ++ dq ++ utf8 ">" ++ nl
  ++ utf8 "        <p class=" ++ dq ++ utf8 "author" ++ dq ++ utf8 ">" ++ author ++ utf8 "</p>" ++ nl
  ++ utf8 "        <p class=" ++ dq ++ utf8 "student-id" ++ dq ++ utf8 ">Clave Única: " ++ student_id ++ utf8 "</p>" ++ nl
  ++ utf8 "        <p class=" ++ dq ++ utf8 "institution" ++ dq ++ utf8 ">Universidad Nacional Autónoma de México</p>" ++ nl
  ++ utf8 "        <p class=" ++ dq ++ utf8 "course" ++ dq ++ utf8 ">" ++ course ++ utf8 "</p>" ++ nl
  ++ utf8 "        <p class=" ++ dq ++ utf8 "date" ++ dq ++ utf8 ">" ++ date ++ utf8 "</p>" ++ nl
  ++ utf8 "    </div>" ++ nl
  ++ utf8 "</div>" ++ nl
  ++ nl
  ++ utf8 "<div class=" ++ dq ++ utf8 "page-break" ++ dq ++ utf8 "></div>" ++ nl
  ++ nl
  ++ utf8 "<div class=" ++ dq ++ utf8 "abstract" ++ dq ++ utf8 ">" ++ nl
  ++ utf8 "    <h2>Resumen</h2>" ++ nl
  ++ utf8 "    <p>Este trabajo de investigación analiza la gramática del lenguaje de programación Python para determinar su clasificación dentro de la jerarquía de Chomsky. Se examina específicamente si Python es un lenguaje libre de contexto o sensible al contexto, con enfoque particular en el rol de la indentación significativa. A través del análisis teórico y práctico, se demuestra que Python requiere una gramática sensible al contexto (Tipo 1 en la jerarquía de Chomsky) debido a su sistema de indentación, lo cual tiene implicaciones importantes para el diseño de compiladores y la complejidad computacional del análisis sintáctico.</p>" ++ nl
  ++ utf8 "    <p><strong>Palabras clave:</strong> Python, gramática sensible al contexto, jerarquía de Chomsky, indentación, análisis sintáctico</p>" ++ nl
  ++ utf8 "</div>" ++ nl
  ++ nl
  ++ utf8 "<div class=" ++ dq ++ utf8 "page-break" ++ dq ++ utf8 "></div>" ++ nl.

(** The chain of [line.replace] calls on a body line. *)
Definition emoji_to_text (line : str) : str :=
  let line := replace (utf8 "🎯") [] line in
  let line := replace (utf8 "📚") [] line in
  let line := replace (utf8 "🐍") [] line in
  let line := replace (utf8 "🔍") [] line in
  let line := replace (utf8 "📊") [] line in
  let line := replace (utf8 "🛠️") [] line in
  let line := replace (utf8 "🔬") [] line in
  let line := replace (utf8 "🔄") [] line in
  let line := replace (utf8 "📝") [] line in
  let line := replace (utf8 "🔗") [] line in
  let line := replace (utf8 "💭") [] line in
  let line := replace (utf8 "✅") (utf8 "[Sí]") line in
  let line := replace (utf8 "❌") (utf8 "[No]") line in
  line.

(** The heading adjustment on a body line. *)
Definition adjust_heading (line : str) : str :=
  if startswith (utf8 "## ") line then utf8 "# " ++ skipn 3 line
  else if startswith (utf8 "### ") line then utf8 "## " ++ skipn 4 line
  else if startswith (utf8 "#### ") line then utf8 "### " ++ skipn 5 line
  else line.

(** One round of the body loop: the new value of [skip_header] and the
    lines appended to [processed_lines]. *)
Definition loop_body (skip_header : bool) (line : str) : bool * list str :=
  if skip_header && negb (startswith (utf8 "## 🎯 Objetivo") line)
  then (skip_header, [])
  else (false, [adjust_heading (emoji_to_text line)]).

Fixpoint body_loop (skip_header : bool) (lines : list str) : list str :=
  match lines with
  | [] => []
  | line :: rest =>
    let (skip_header', out) := loop_body skip_header line in
    out ++ body_loop skip_header' rest
  end.

Definition process_markdown_for_apa (markdown_content : str) : str :=
  let lines := split nl markdown_content in
  let m := fold_left scan_line lines empty_metadata in
  let processed_lines := body_loop true lines in
  apa_content m ++ join nl processed_lines.

(** [convert_to_pdf] up to the document handed to the PDF renderer.  The
    Markdown-to-HTML conversion is the library's; the stylesheet is the
    constant of [create_apa_css]. *)
Section Renderer.

Variable markdown2_markdown : str -> str.


End Renderer.

End Html.


(** * Vocabulary of the statements *)

(** ** The direct-layout loop: tests, views of the canvas log and
    vocabulary of the statements *)

Module SimpleViews.
Import Simple.

(** The tests of [loop_body], on the line as the loop receives it. *)
Definition is_marker (line : str) : bool :=
  contains (utf8 "## 🎯 Objetivo") line || contains (utf8 "## Objetivo") line.

Definition is_fence (line : str) : bool :=
  startswith (utf8 "```") (strip (clean_emojis line)).

Definition is_separator (line : str) : bool :=
  contains (utf8 "|") (clean_emojis line)
  && contains (utf8 "---") (clean_emojis line).

Definition has_pipe (line : str) : bool :=
  contains (utf8 "|") (clean_emojis line).

(** The loop goes past its skipping test on [line]. *)
Definition active (st : loop_state) (line : str) : bool :=
  negb (skip_header st) || is_marker line.


(** Outside a code block the code buffer is empty, outside a table the row
    buffer is empty. *)
Definition buffers_ok (st : loop_state) : Prop :=
  (in_code_block st = false -> code_buffer st = [])
  /\ (in_table st = false -> table_data st = []).

(** The calls that draw a code block from the texts of its lines. *)
Definition code_block_ops (texts : list str) : list op :=
  match texts with
  | [] => []
  | _ :: _ =>
    [set_font "Courier" "" 10; set_fill_color 245 245 245]
    ++ map (fun t => multi_cell 0 5 t 0 "L" true) texts
    ++ [set_fill_color 255 255 255]
  end.

(** The texts drawn as code lines (the only calls with a fill). *)
Definition code_lines_drawn (out : list op) : list str :=
  flat_map (fun o => match o with
                     | multi_cell _ _ txt _ _ true => [txt]
                     | _ => []
                     end) out.

Definition pipe : char := 124%N.



(** The rows drawn: the texts of the cells drawn right before each
    [pdf.ln()] (the only call of [ln] without a height). *)
Fixpoint rows_drawn_from (cur : list str) (out : list op) : list (list str) :=
  match out with
  | [] => []
  | cell _ _ txt _ _ _ :: out' => rows_drawn_from (cur ++ [txt]) out'
  | ln None :: out' => cur :: rows_drawn_from [] out'
  | _ :: out' => rows_drawn_from [] out'
  end.

Definition rows_drawn (out : list op) : list (list str) :=
  rows_drawn_from [] out.


(** A line that reaches the paragraph branch of [emit_line]. *)
Definition is_paragraph (line : str) : bool :=
  negb (startswith (utf8 "## ") line)
  && negb (startswith (utf8 "### ") line)
  && negb (startswith (utf8 "#### ") line)
  && negb (startswith (utf8 "---") line)
  && truthy (strip line).

(** The spans written with [pdf.write], each with whether the font set
    before it is the bold one. *)
Fixpoint spans_from (bold : bool) (out : list op) : list (bool * str) :=
  match out with
  | [] => []
  | set_font _ style _ :: out' => spans_from (String.eqb style "B") out'
  | write _ txt :: out' => (bold, txt) :: spans_from bold out'
  | _ :: out' => spans_from bold out'
  end.

Definition spans_written (out : list op) : list (bool * str) :=
  spans_from false out.

(** The spans of the parts of a split line: the non-empty parts, those at
    odd positions in bold. *)
Definition spans_of_parts (parts : list str) : list (bool * str) :=
  flat_map (fun '(j, part) => if truthy part then [(Nat.odd j, part)] else [])
           (enumerate parts).

(** The texts drawn with [pdf.multi_cell]. *)
Definition texts_drawn (out : list op) : list str :=
  flat_map (fun o => match o with
                     | multi_cell _ _ txt _ _ _ => [txt]
                     | _ => []
                     end) out.

(** The heading remapping in the words of the specification: the output
    level and the remainder of a line that starts with [## ], [### ] or
    [#### ]. *)
Definition remap_heading (line : str) : option (nat * str) :=
  if startswith (utf8 "## ") line then Some (1, skipn 3 line)
  else if startswith (utf8 "### ") line then Some (2, skipn 4 line)
  else if startswith (utf8 "#### ") line then Some (3, skipn 5 line)
  else None.

(** A heading of the output scheme in Markdown: [level] number signs, a
    space and the text. *)
Definition markdown_heading (level : nat) (text : str) : str :=
  repeat 35%N level ++ utf8 " " ++ text.

(** A heading of the output scheme on the canvas: level 1 centred in bold
    14 pt, level 2 flush left in bold 13 pt, level 3 indented in bold
    italic 12 pt. *)
Definition heading_ops (level : nat) (text : str) : list op :=
  match level with
  | 1 => [ln (Some 5%N); set_font "Times" "B" 14;
          multi_cell 0 10 text 0 "C" false;
          ln (Some 3%N); set_font "Times" "" 12]
  | 2 => [ln (Some 3%N); set_font "Times" "B" 13;
          multi_cell 0 10 text 0 "L" false;
          ln (Some 2%N); set_font "Times" "" 12]
  | _ => [ln (Some 2%N); set_font "Times" "BI" 12;
          multi_cell 0 10 (utf8 "    " ++ text) 0 "L" false;
          ln (Some 2%N); set_font "Times" "" 12]
  end.

(** What [emit_line] draws for a line that is not a heading. *)
Definition body_ops (line : str) : list op :=
  if startswith (utf8 "---") line then [ln (Some 5%N)]
  else if truthy (strip line) then
    if contains (utf8 "**") line then emit_inline line else emit_plain line
  else [].

(** The headings drawn: the texts drawn with [multi_cell] under one of the
    three heading fonts, with the level of the font. *)
Definition level_of_font (style : string) (size : N) : option nat :=
  if (String.eqb style "B" && N.eqb size 14)%bool then Some 1
  else if (String.eqb style "B" && N.eqb size 13)%bool then Some 2
  else if (String.eqb style "BI" && N.eqb size 12)%bool then Some 3
  else None.

Fixpoint headings_from (level : option nat) (out : list op)
  : list (nat * str) :=
  match out with
  | [] => []
  | set_font _ style size :: out' => headings_from (level_of_font style size) out'
  | multi_cell _ _ txt _ _ _ :: out' =>
    match level with
    | Some l => (l, txt) :: headings_from level out'
    | None => headings_from level out'
    end
  | _ :: out' => headings_from level out'
  end.

Definition headings_drawn (out : list op) : list (nat * str) :=
  headings_from None out.

End SimpleViews.

Import SimpleViews.

(** ** The HTML variant: the transformation of a body line *)

Module HtmlViews.
Import Html.

Definition transform (line : str) : str := adjust_heading (emoji_to_text line).

End HtmlViews.

Import HtmlViews.

(** ** The replacements of [clean_text] *)

Module CleanViews.
Import Simple.

Definition star : char := 42%N.
Definition line_feed : char := 10%N.

(** What [clean_text] needs of a replacement: a single code point, other
    than the line feed, is replaced by a text without line feed and without
    asterisk. *)
Definition rule_ok (r : str * str) : Prop :=
  exists c, fst r = [c] /\ c <> line_feed
            /\ ~ In line_feed (snd r) /\ ~ In star (snd r).

Definition apply_rules (rules : list (str * str)) (text : str) : str :=
  fold_left (fun text '(old, new) => replace old new text) rules text.

End CleanViews.

Import CleanViews.

(** ** Metadata fields, glyphs, labels and the documents the statements
    are tried on *)

Inductive variant := HtmlCss | DirectLayout.

Inductive field := Title | Author | StudentId | Course | Date.

Definition field_eqb (f g : field) : bool :=
  match f, g with
  | Title, Title | Author, Author | StudentId, StudentId
  | Course, Course | Date, Date => true
  | _, _ => false
  end.

Definition get (f : field) (m : metadata) : str :=
  match f with
  | Title => title m
  | Author => author m
  | StudentId => student_id m
  | Course => course m
  | Date => date m
  end.

(** The student-id label each variant tests for. *)
Definition clave_label (v : variant) : str :=
  match v with
  | HtmlCss => utf8 "**Clave Única:**"
  | DirectLayout => utf8 "**Clave Unica:**"
  end.

(** The field a scanned line is read as: the first test of the chain of
    [scan_line] that the line passes. *)
Definition field_of (v : variant) (line : str) : option field :=
  if startswith (utf8 "# ") line then Some Title
  else if contains (utf8 "**Estudiante:**") line then Some Author
  else if contains (clave_label v) line then Some StudentId
  else if contains (utf8 "**Materia:**") line then Some Course
  else if contains (utf8 "**Fecha:**") line then Some Date
  else None.

(** The value [scan_line] stores for a line read as field [f]. *)
Definition value_of (v : variant) (f : field) (line : str) : str :=
  match f with
  | Title => strip (replace (utf8 "# ") [] line)
  | Author => strip (nth 1 (split (utf8 "**Estudiante:**") line) [])
  | StudentId => strip (nth 1 (split (clave_label v) line) [])
  | Course => strip (nth 1 (split (utf8 "**Materia:**") line) [])
  | Date => strip (nth 1 (split (utf8 "**Fecha:**") line) [])
  end.

Definition scan (v : variant) : metadata -> str -> metadata :=
  match v with
  | HtmlCss => Html.scan_line
  | DirectLayout => Simple.scan_line
  end.

(** The lines each variant scans for metadata. *)
Definition scanned_lines (v : variant) (content : str) : list str :=
  match v with
  | HtmlCss => split nl content
  | DirectLayout => firstn 10 (split nl (Simple.clean_text content))
  end.

(** The metadata each variant extracts from a document. *)
Definition extract_metadata (v : variant) (content : str) : metadata :=
  match v with
  | HtmlCss => fold_left Html.scan_line (split nl content) empty_metadata
  | DirectLayout => fst (Simple.process_document content)
  end.

(** The claim of the specification: the earliest line read as a field
    decides the field. *)
Definition first_match_wins (v : variant) : Prop :=
  forall content f before line after,
    scanned_lines v content = before ++ line :: after ->
    field_of v line = Some f ->
    Forall (fun l => field_of v l <> Some f) before ->
    get f (extract_metadata v content) = value_of v f line.

Definition reads_as (v : variant) (f : field) (line : str) : bool :=
  match field_of v line with
  | Some g => field_eqb f g
  | None => false
  end.

Definition two_titles : str := utf8 "# A
# B".

Definition unterminated_doc : str := utf8 "## Objetivo
texto
```
x = 1
y = 2".

Definition fenced_doc : str := utf8 "## Objetivo
```
print('✅ listo')
# 34567890123456789012345678901234567890123456789012345678901234567890 sobra
```".



Definition started : Simple.loop_state :=
  Simple.LoopState false false [] false [].

Definition unmatched_doc : str := utf8 "## Objetivo
a **b".



Definition heading_in_code_doc : str := utf8 "## Objetivo
```
## x
```".

(** Every occurrence of [glyph] is replaced by [token]: wherever the glyph
    stands in a line, the result is the token between the results for the
    text before it and the text after it. *)
Definition replaced_by (f : str -> str) (glyph token : str) : Prop :=
  forall pre post, f (pre ++ glyph ++ post) = f pre ++ token ++ f post.

(** Every occurrence of [glyph] is deleted before anything else is done: a
    line is treated as the line without the glyph. *)
Definition deleted_first (f : str -> str) (glyph : str) : Prop :=
  forall pre post, f (pre ++ glyph ++ post) = f (pre ++ post).

(** The glyphs the HTML variant deletes before it looks for the two code
    points of the tools glyph, and those it deletes after. *)
Definition early_glyphs : str := utf8 "🎯📚🐍🔍📊".
Definition late_glyphs : str := utf8 "🔬🔄📝🔗💭".










(** ** Further vocabulary: the skipped header, page breaks and the
    replaced code points *)

(** The test of the skipping loop of the HTML variant. *)
Definition html_marker (line : str) : bool :=
  startswith (utf8 "## 🎯 Objetivo") line.

(** What holds of the loop variables of the direct-layout variant after any
    number of rounds: while the loop skips nothing has changed, and the two
    buffers are empty outside their blocks. *)
Definition reachable_ok (st : Simple.loop_state) : Prop :=
  (Simple.skip_header st = true -> st = Simple.initial_state)
  /\ buffers_ok st.


(** The code points [clean_text] replaces. *)
Definition replaced_points : str := flat_map fst Simple.replacements.

(** The glyphs of a single code point both variants look for. *)
Definition single_glyphs : str := utf8 "🎯📚🐍🔍📊🔬🔄📝🔗💭✅❌".

(** The cells [emit_row] draws for a buffered row, whatever the row. *)
Definition cells_of_row (row : str) : list str :=
  map (firstn 20) (firstn 3 (map strip (removelast (tl (split (utf8 "|") row))))).

Definition no_marker_doc : str := utf8 "# Titulo
**Estudiante:** Ana
texto sin seccion".

Definition open_table_doc : str := utf8 "## Objetivo
|---|---|
| 1 | a |
| 2 | b |".

Definition marker_doc : str := utf8 "# Titulo
intro
## 🎯 Objetivo
### Alcance ✅
fin".

(** The texts of the table cells drawn (the only cells 60 wide). *)
Definition table_cells_drawn (out : list op) : list str :=
  flat_map (fun o => match o with
                     | cell 60 _ txt _ _ _ => [txt]
                     | _ => []
                     end) out.

(** * Facts about the string methods *)

Section PyFacts.

Lemma char_eqb_eq (a b : char) : char_eqb a b = true <-> a = b.
Proof. apply N.eqb_eq. Qed.

Lemma char_eqb_neq (a b : char) : char_eqb a b = false <-> a <> b.
Proof. apply N.eqb_neq. Qed.

Lemma char_eqb_refl (a : char) : char_eqb a a = true.
Proof. apply N.eqb_refl. Qed.

Lemma startswith_app (p s : str) : startswith p (p ++ s) = true.
Proof.
  induction p as [|x p IH]; simpl; [reflexivity|].
  now rewrite char_eqb_refl.
Qed.

Lemma startswith_inv (p s : str) :
  startswith p s = true -> s = p ++ skipn (length p) s.
Proof.
  revert s; induction p as [|x p IH]; intros s H; simpl in *; [reflexivity|].
  destruct s as [|y s]; [discriminate|].
  apply andb_prop in H as [Hxy Hp].
  apply char_eqb_eq in Hxy; subst y.
  simpl. f_equal. now apply IH.
Qed.

(** A prefix that matches [p ++ r] up to a code point that [p] does not
    hold matches [p] alone. *)
Lemma startswith_barrier (p a b : str) (g : char) :
  ~ In g p -> startswith p (a ++ g :: b) = startswith p a.
Proof.
  revert a; induction p as [|x p IH]; intros a Hg; simpl; [reflexivity|].
  destruct a as [|y a]; simpl.
  - destruct (char_eqb x g) eqn:E; [|reflexivity].
    apply char_eqb_eq in E. exfalso. apply Hg. now left.
  - rewrite IH; [reflexivity|]. intro Hin. apply Hg. now right.
Qed.

Lemma partition_hit (sep s : str) :
  startswith sep s = true ->
  partition sep s = Some ([], skipn (length sep) s).
Proof.
  intros H. destruct s as [|c s]; simpl.
  - destruct sep; [reflexivity|discriminate].
  - now rewrite H.
Qed.

Lemma partition_miss (sep : str) (c : char) (s : str) :
  startswith sep (c :: s) = false ->
  partition sep (c :: s) =
  match partition sep s with
  | Some (b, a) => Some (c :: b, a)
  | None => None
  end.
Proof. intros H. cbn [partition]. now rewrite H. Qed.

Lemma partition_shorter {sep s b a : str} :
  sep <> [] -> partition sep s = Some (b, a) -> length a < length s.
Proof.
  intros Hsep. revert b a.
  induction s as [|c s IH]; intros b a H.
  - simpl in H. destruct sep; [congruence|discriminate].
  - cbn [partition] in H.
    destruct (startswith sep (c :: s)) eqn:E.
    + inversion H; subst. destruct sep as [|x sep]; [congruence|].
      simpl. pose proof (length_skipn (length sep) s). lia.
    + destruct (partition sep s) as [[b' a']|]; [|discriminate].
      inversion H; subst. specialize (IH _ _ eq_refl). simpl. lia.
Qed.

Lemma partition_sound {sep s b a : str} :
  partition sep s = Some (b, a) -> s = b ++ sep ++ a.
Proof.
  revert b a. induction s as [|c s IH]; intros b a H.
  - simpl in H. destruct sep; [|discriminate]. now inversion H.
  - cbn [partition] in H.
    destruct (startswith sep (c :: s)) eqn:E.
    + inversion H; subst. simpl. now apply startswith_inv.
    + destruct (partition sep s) as [[b' a']|]; [|discriminate].
      inversion H; subst. simpl. f_equal. now apply IH.
Qed.

(** The fuel of [split] and [replace] is always enough. *)
Lemma split_fuel_enough (sep : str) :
  sep <> [] ->
  forall f1 f2 s, length s <= f1 -> length s <= f2 ->
  split_fuel f1 sep s = split_fuel f2 sep s.
Proof.
  intros Hsep. induction f1 as [|f1 IH]; intros f2 s H1 H2.
  - destruct s; [|simpl in H1; lia].
    destruct sep; [congruence|]. destruct f2; reflexivity.
  - destruct f2 as [|f2].
    + destruct s; [|simpl in H2; lia].
      destruct sep; [congruence|]. reflexivity.
    + simpl. destruct (partition sep s) as [[b a]|] eqn:E; [|reflexivity].
      f_equal. pose proof (partition_shorter Hsep E).
      apply IH; lia.
Qed.

Lemma split_eq (sep s : str) :
  sep <> [] ->
  split sep s =
  match partition sep s with
  | None => [s]
  | Some (b, a) => b :: split sep a
  end.
Proof.
  intros Hsep. unfold split.
  destruct (partition sep s) as [[b a]|] eqn:E.
  - pose proof (partition_shorter Hsep E) as Hlt.
    destruct (length s) as [|n] eqn:El; [lia|].
    simpl. rewrite E. f_equal. apply split_fuel_enough; [assumption|lia|lia].
  - destruct (length s); simpl; now rewrite E.
Qed.

Lemma replace_fuel_enough (old new : str) :
  old <> [] ->
  forall f1 f2 s, length s <= f1 -> length s <= f2 ->
  replace_fuel f1 old new s = replace_fuel f2 old new s.
Proof.
  intros Hold. induction f1 as [|f1 IH]; intros f2 s H1 H2.
  - destruct s; [|simpl in H1; lia].
    destruct old; [congruence|]. destruct f2; reflexivity.
  - destruct f2 as [|f2].
    + destruct s; [|simpl in H2; lia].
      destruct old; [congruence|]. reflexivity.
    + simpl. destruct (partition old s) as [[b a]|] eqn:E; [|reflexivity].
      do 2 f_equal. pose proof (partition_shorter Hold E).
      apply IH; lia.
Qed.

Lemma replace_eq (old new s : str) :
  old <> [] ->
  replace old new s =
  match partition old s with
  | None => s
  | Some (b, a) => b ++ new ++ replace old new a
  end.
Proof.
  intros Hold. unfold replace.
  destruct (partition old s) as [[b a]|] eqn:E.
  - pose proof (partition_shorter Hold E) as Hlt.
    destruct (length s) as [|n] eqn:El; [lia|].
    simpl. rewrite E. do 2 f_equal.
    apply replace_fuel_enough; [assumption|lia|lia].
  - destruct (length s); simpl; now rewrite E.
Qed.

(** [split] and [replace] as a scan from the left. *)
Lemma split_nil (sep : str) : sep <> [] -> split sep [] = [[]].
Proof. intros H. destruct sep; [congruence|reflexivity]. Qed.

Lemma split_hit (sep s : str) :
  sep <> [] -> startswith sep s = true ->
  split sep s = [] :: split sep (skipn (length sep) s).
Proof.
  intros Hsep H. rewrite split_eq by assumption.
  now rewrite partition_hit.
Qed.

Lemma split_miss (sep : str) (c : char) (s : str) :
  sep <> [] -> startswith sep (c :: s) = false ->
  split sep (c :: s) =
  (c :: hd [] (split sep s)) :: tl (split sep s).
Proof.
  intros Hsep H. rewrite split_eq by assumption.
  rewrite partition_miss by assumption.
  rewrite (split_eq sep s Hsep).
  now destruct (partition sep s) as [[b a]|].
Qed.

Lemma replace_nil (old new : str) : old <> [] -> replace old new [] = [].
Proof. intros H. destruct old; [congruence|reflexivity]. Qed.

Lemma replace_hit (old new s : str) :
  old <> [] -> startswith old s = true ->
  replace old new s = new ++ replace old new (skipn (length old) s).
Proof.
  intros Hold H. rewrite replace_eq by assumption.
  now rewrite partition_hit.
Qed.

Lemma replace_miss (old new : str) (c : char) (s : str) :
  old <> [] -> startswith old (c :: s) = false ->
  replace old new (c :: s) = c :: replace old new s.
Proof.
  intros Hold H. rewrite replace_eq by assumption.
  rewrite partition_miss by assumption.
  rewrite (replace_eq old new s Hold).
  now destruct (partition old s) as [[b a]|].
Qed.

(** Splitting on a single code point. *)
Lemma split_char_app (c : char) (x r : str) :
  ~ In c x -> split [c] (x ++ c :: r) = x :: split [c] r.
Proof.
  assert (Hsep : [c] <> []) by discriminate.
  induction x as [|a x IH]; intros Hx.
  - cbn [app]. rewrite split_hit; [reflexivity|assumption|].
    cbn [startswith]. now rewrite char_eqb_refl.
  - cbn [app]. rewrite split_miss; [|assumption|].
    + rewrite IH; [reflexivity|]. intro Hin. apply Hx. now right.
    + cbn [startswith]. rewrite andb_true_r. apply char_eqb_neq.
      intro E. apply Hx. now left.
Qed.

Lemma split_char_none (c : char) (x : str) :
  ~ In c x -> split [c] x = [x].
Proof.
  assert (Hsep : [c] <> []) by discriminate.
  induction x as [|a x IH]; intros Hx; [reflexivity|].
  rewrite split_miss; [|assumption|].
  - rewrite IH; [reflexivity|]. intro Hin. apply Hx. now right.
  - cbn [startswith]. rewrite andb_true_r. apply char_eqb_neq.
    intro E. apply Hx. now left.
Qed.




Lemma re_sub_class_app (cls repl a b : str) :
  re_sub_class cls repl (a ++ b)
  = re_sub_class cls repl a ++ re_sub_class cls repl b.
Proof. apply flat_map_app. Qed.


Lemma split_absent (sep s : str) :
  sep <> [] -> contains sep s = false -> split sep s = [s].
Proof.
  intros Hsep H. rewrite split_eq by assumption. unfold contains in H.
  now destruct (partition sep s) as [[b a]|].
Qed.

Lemma enumerate_from_snoc {A} (l : list A) (x : A) (a : nat) :
  combine (seq a (length (l ++ [x]))) (l ++ [x])
  = combine (seq a (length l)) l ++ [(a + length l, x)].
Proof.
  revert a. induction l as [|y l IH]; intros a; cbn [app length seq combine].
  - now rewrite Nat.add_0_r.
  - rewrite IH. cbn [app]. now rewrite Nat.add_succ_comm.
Qed.

Lemma enumerate_snoc {A} (l : list A) (x : A) :
  enumerate (l ++ [x]) = enumerate l ++ [(length l, x)].
Proof. unfold enumerate. now rewrite enumerate_from_snoc. Qed.




(** Replacing a single code point works code point by code point. *)
Lemma replace_char (c : char) (new s : str) :
  replace [c] new s = flat_map (fun x => if char_eqb c x then new else [x]) s.
Proof.
  assert (Hold : [c] <> []) by discriminate.
  induction s as [|x s IH]; [reflexivity|].
  cbn [flat_map]. destruct (char_eqb c x) eqn:E.
  - rewrite replace_hit; [|assumption|cbn [startswith]; now rewrite E].
    cbn [length skipn]. now rewrite IH.
  - rewrite replace_miss; [|assumption|cbn [startswith]; now rewrite E].
    now rewrite IH.
Qed.

Lemma replace_char_app (c : char) (new a b : str) :
  replace [c] new (a ++ b) = replace [c] new a ++ replace [c] new b.
Proof. rewrite !replace_char. apply flat_map_app. Qed.

Lemma replace_char_hit (c : char) (new a b : str) :
  replace [c] new (a ++ c :: b) = replace [c] new a ++ new ++ replace [c] new b.
Proof.
  rewrite !replace_char, flat_map_app. cbn [flat_map].
  now rewrite char_eqb_refl.
Qed.

(** A code point that does not occur in [old] is kept, and no occurrence of
    [old] reaches across it. *)
Lemma replace_cons_barrier (old new : str) (g : char) (b : str) :
  old <> [] -> ~ In g old ->
  replace old new (g :: b) = g :: replace old new b.
Proof.
  intros Hold Hg. apply replace_miss; [assumption|].
  destruct old as [|o old]; [congruence|].
  cbn [startswith]. destruct (char_eqb o g) eqn:E; [|reflexivity].
  apply char_eqb_eq in E. exfalso. apply Hg. now left.
Qed.

Lemma replace_barrier_bounded (old new : str) (g : char) (b : str) (n : nat) :
  old <> [] -> ~ In g old ->
  forall a, length a <= n ->
  replace old new (a ++ g :: b) = replace old new a ++ g :: replace old new b.
Proof.
  intros Hold Hg. induction n as [|n IH]; intros a Hn.
  - destruct a; [|simpl in Hn; lia]. cbn [app].
    rewrite replace_nil by assumption. now apply replace_cons_barrier.
  - destruct a as [|x a].
    + cbn [app]. rewrite replace_nil by assumption.
      now apply replace_cons_barrier.
    + pose proof (startswith_barrier old (x :: a) b g Hg) as Hb.
      destruct (startswith old (x :: a)) eqn:E.
      * pose proof (startswith_inv _ _ E) as Ea.
        remember (skipn (length old) (x :: a)) as a2 eqn:Ha2.
        assert (Hlen : length a2 <= n).
        { apply (f_equal (@length _)) in Ea. rewrite length_app in Ea.
          destruct old; [congruence|]. simpl in Ea, Hn. lia. }
        rewrite (replace_hit old new (x :: a)) by assumption.
        rewrite <- Ha2.
        rewrite replace_hit by assumption.
        rewrite Ea at 1. rewrite <- app_assoc, skipn_app, skipn_all.
        rewrite Nat.sub_diag. cbn [app skipn].
        rewrite IH by assumption. now rewrite <- app_assoc.
      * cbn [app] in *. rewrite !replace_miss by assumption.
        rewrite IH by (simpl in Hn; lia). reflexivity.
Qed.

Lemma replace_barrier (old new : str) (g : char) (a b : str) :
  old <> [] -> ~ In g old ->
  replace old new (a ++ g :: b) = replace old new a ++ g :: replace old new b.
Proof.
  intros Hold Hg.
  now apply (replace_barrier_bounded old new g b (length a) Hold Hg).
Qed.

(** Deleting a pair of two different code points: an occurrence is deleted
    and the texts on its two sides are treated apart. *)
Lemma replace_pair_bounded (p q : char) (b : str) (n : nat) :
  p <> q ->
  forall a, length a <= n ->
  replace [p; q] [] (a ++ p :: q :: b)
  = replace [p; q] [] a ++ replace [p; q] [] b.
Proof.
  intros Hpq. assert (Hold : [p; q] <> []) by discriminate.
  assert (Hhit : forall r, startswith [p; q] (p :: q :: r) = true).
  { intros r. cbn [startswith]. now rewrite !char_eqb_refl. }
  induction n as [|n IH]; intros a Hn.
  - destruct a; [|simpl in Hn; lia]. cbn [app].
    now rewrite replace_hit by (assumption || apply Hhit).
  - destruct a as [|x a].
    + cbn [app]. now rewrite replace_hit by (assumption || apply Hhit).
    + destruct (startswith [p; q] ((x :: a) ++ p :: q :: b)) eqn:E.
      * cbn [app startswith] in E.
        apply andb_prop in E as [Ex E]. apply char_eqb_eq in Ex. subst x.
        destruct a as [|y a].
        { cbn [app] in E. rewrite andb_true_r in E.
          apply char_eqb_eq in E. congruence. }
        cbn [app] in E. rewrite andb_true_r in E.
        apply char_eqb_eq in E. subst y.
        cbn [app].
        rewrite (replace_hit [p; q] [] (p :: q :: a ++ p :: q :: b))
          by (assumption || apply Hhit).
        rewrite (replace_hit [p; q] [] (p :: q :: a))
          by (assumption || apply Hhit).
        cbn [length skipn app]. apply IH. simpl in Hn. lia.
      * assert (E' : startswith [p; q] (x :: a) = false).
        { destruct (startswith [p; q] (x :: a)) eqn:F; [|reflexivity].
          apply startswith_inv in F. rewrite F, <- app_assoc in E.
          now rewrite startswith_app in E. }
        cbn [app] in *. rewrite !replace_miss by assumption.
        rewrite IH by (simpl in Hn; lia). reflexivity.
Qed.

Lemma replace_pair (p q : char) (a b : str) :
  p <> q ->
  replace [p; q] [] (a ++ p :: q :: b)
  = replace [p; q] [] a ++ replace [p; q] [] b.
Proof. intros H. now apply (replace_pair_bounded p q b (length a) H). Qed.




(** Splitting into lines after a replacement of single code points that
    neither takes nor gives a line feed. *)
Lemma split_char_prefix (c : char) (w t : str) :
  ~ In c w ->
  split [c] (w ++ t) = (w ++ hd [] (split [c] t)) :: tl (split [c] t).
Proof.
  assert (Hsep : [c] <> []) by discriminate.
  assert (Hne : forall s, exists h r, split [c] s = h :: r).
  { intros s. rewrite split_eq by assumption.
    destruct (partition [c] s) as [[x y]|]; eauto. }
  induction w as [|x w IH]; intros Hw; cbn [app].
  - destruct (Hne t) as (h & r & E). now rewrite E.
  - rewrite split_miss; [|assumption|].
    + rewrite IH; [reflexivity|]. intro H. apply Hw. now right.
    + cbn [startswith]. rewrite andb_true_r. apply char_eqb_neq.
      intro E. apply Hw. now left.
Qed.

Lemma split_flat_map (c : char) (h : char -> str) (s : str) :
  h c = [c] -> (forall x, x <> c -> ~ In c (h x)) ->
  split [c] (flat_map h s) = map (flat_map h) (split [c] s).
Proof.
  intros Hc Hh. assert (Hsep : [c] <> []) by discriminate.
  assert (Hhit : forall r, startswith [c] (c :: r) = true).
  { intros r. cbn [startswith]. now rewrite char_eqb_refl. }
  induction s as [|x s IH]; [reflexivity|].
  cbn [flat_map]. destruct (N.eq_dec x c) as [->|Hx].
  - rewrite Hc. cbn [app].
    rewrite (split_hit [c] (c :: flat_map h s)) by (assumption || apply Hhit).
    rewrite (split_hit [c] (c :: s)) by (assumption || apply Hhit).
    cbn [length skipn map flat_map]. now rewrite IH.
  - rewrite split_char_prefix by now apply Hh.
    rewrite split_miss; [|assumption|].
    + cbn [map flat_map]. rewrite IH.
      destruct (split [c] s) as [|l ls]; [|reflexivity].
      cbn [map hd tl flat_map]. reflexivity.
    + cbn [startswith]. rewrite andb_true_r. apply char_eqb_neq. congruence.
Qed.

End PyFacts.

(** Closed goals are settled by evaluation. *)
Ltac by_compute := vm_compute; reflexivity.

Ltac forall_by_compute :=
  repeat (apply Forall_cons; [by_compute|]); apply Forall_nil.

(** * Metadata extraction *)

Section LastWrite.

Context {S A V : Type}.
Variable step : S -> A -> S.
Variable read : S -> V.
Variable writes : A -> bool.
Variable written : A -> V.
Hypothesis step_read :
  forall s a, read (step s a) = if writes a then written a else read s.

Lemma fold_left_no_write (l : list A) (s : S) :
  Forall (fun a => writes a = false) l ->
  read (fold_left step l s) = read s.
Proof.
  revert s. induction l as [|a l IH]; intros s H; simpl; [reflexivity|].
  inversion H; subst. rewrite IH by assumption.
  rewrite step_read. now replace (writes a) with false.
Qed.

Lemma fold_left_last_write (l1 : list A) (x : A) (l2 : list A) (s : S) :
  writes x = true ->
  Forall (fun a => writes a = false) l2 ->
  read (fold_left step (l1 ++ x :: l2) s) = written x.
Proof.
  intros Hx H2. rewrite fold_left_app. simpl.
  rewrite fold_left_no_write by assumption.
  rewrite step_read. now rewrite Hx.
Qed.

End LastWrite.

Lemma reads_as_true v f line : reads_as v f line = true <-> field_of v line = Some f.
Proof.
  unfold reads_as. destruct (field_of v line) as [g|].
  - destruct f, g; simpl; split; congruence.
  - split; discriminate.
Qed.

Lemma reads_as_false v f line : reads_as v f line = false <-> field_of v line <> Some f.
Proof.
  rewrite <- reads_as_true. destruct (reads_as v f line); split; congruence.
Qed.

Lemma scan_get v f m line :
  get f (scan v m line) = if reads_as v f line then value_of v f line else get f m.
Proof.
  unfold reads_as, field_of.
  destruct v; cbn [scan clave_label];
    [unfold Html.scan_line | unfold Simple.scan_line];
    repeat match goal with
           | |- context [if ?c then _ else _] =>
             lazymatch c with
             | field_eqb _ _ => fail
             | _ => destruct c eqn:?
             end
           end;
    destruct f; reflexivity.
Qed.

Lemma extract_metadata_fold v content :
  extract_metadata v content = fold_left (scan v) (scanned_lines v content) empty_metadata.
Proof.
  destruct v;
    cbv beta iota zeta delta
      [extract_metadata scanned_lines scan Simple.process_document fst];
    reflexivity.
Qed.

(** C1, as the code has it: the latest scanned line read as a field decides
    the field; every earlier line with the same label is overwritten.  (The
    direct-layout variant scans the first ten lines only.) *)
Theorem metadata_last_match_wins (v : variant) (content : str) (f : field)
    (before : list str) (line : str) (after : list str) :
  scanned_lines v content = before ++ line :: after ->
  field_of v line = Some f ->
  Forall (fun l => field_of v l <> Some f) after ->
  get f (extract_metadata v content) = value_of v f line.
Proof.
  intros Hlines Hline Hafter.
  rewrite extract_metadata_fold, Hlines.
  apply (fold_left_last_write (scan v) (get f) (reads_as v f) (value_of v f)).
  - intros s a. apply scan_get.
  - now apply reads_as_true.
  - eapply Forall_impl; [|exact Hafter].
    intros a Ha. now apply reads_as_false.
Qed.

Lemma metadata_last_match_wins_witness :
  (get Title (extract_metadata HtmlCss two_titles)
   = value_of HtmlCss Title (utf8 "# B")
   /\ value_of HtmlCss Title (utf8 "# B") = utf8 "B")
  /\ (get Title (extract_metadata DirectLayout two_titles)
      = value_of DirectLayout Title (utf8 "# B")
      /\ value_of DirectLayout Title (utf8 "# B") = utf8 "B").
Proof.
  split; (split; [|vm_compute; reflexivity]).
  - apply (metadata_last_match_wins HtmlCss two_titles Title
             [utf8 "# A"] (utf8 "# B") []);
      [vm_compute; reflexivity | vm_compute; reflexivity | constructor].
  - apply (metadata_last_match_wins DirectLayout two_titles Title
             [utf8 "# A"] (utf8 "# B") []);
      [vm_compute; reflexivity | vm_compute; reflexivity | constructor].
Defined.

(** C1 as stated fails in both variants: in a document with two title lines
    the title is the one of the second line. *)
Lemma first_match_wins_fails :
  ~ first_match_wins HtmlCss /\ ~ first_match_wins DirectLayout.
Proof.
  split; intros H.
  - assert (E : get Title (extract_metadata HtmlCss two_titles)
                = value_of HtmlCss Title (utf8 "# A")).
    { apply (H two_titles Title [] (utf8 "# A") [utf8 "# B"]);
        [vm_compute; reflexivity | vm_compute; reflexivity | constructor]. }
    vm_compute in E. discriminate.
  - assert (E : get Title (extract_metadata DirectLayout two_titles)
                = value_of DirectLayout Title (utf8 "# A")).
    { apply (H two_titles Title [] (utf8 "# A") [utf8 "# B"]);
        [vm_compute; reflexivity | vm_compute; reflexivity | constructor]. }
    vm_compute in E. discriminate.
Qed.

(** * The body loop of the direct-layout variant *)

Module SimpleFacts.
Import Simple.

Lemma loop_body_skipped st line :
  active st line = false -> loop_body st line = (st, []).
Proof.
  unfold active, is_marker, loop_body. intros H.
  apply orb_false_iff in H as [H1 H2].
  apply negb_false_iff in H1. now rewrite H1, H2.
Qed.

Lemma loop_body_active st line :
  active st line = true ->
  loop_body st line =
  let line := clean_emojis line in
  if startswith (utf8 "```") (strip line) then
    if in_code_block st then
      (LoopState false false [] (in_table st) (table_data st),
       emit_code (code_buffer st))
    else
      (LoopState false true (code_buffer st) (in_table st) (table_data st),
       [ln (Some 2%N)])
  else if in_code_block st then
    (LoopState false true (code_buffer st ++ [line]) (in_table st)
               (table_data st), [])
  else if contains (utf8 "|") line && contains (utf8 "---") line then
    (LoopState false false (code_buffer st) true (table_data st), [])
  else if in_table st && contains (utf8 "|") line then
    (LoopState false false (code_buffer st) true (table_data st ++ [line]), [])
  else if in_table st && negb (contains (utf8 "|") line) then
    (LoopState false false (code_buffer st) false [],
     emit_table (table_data st) ++ emit_line line)
  else
    (LoopState false false (code_buffer st) (in_table st) (table_data st),
     emit_line line).
Proof.
  unfold active, is_marker, loop_body. intros H.
  destruct (skip_header st); simpl in H; [|reflexivity].
  now rewrite H.
Qed.

Lemma loop_body_open st line :
  active st line = true -> in_code_block st = false -> is_fence line = true ->
  loop_body st line =
  (LoopState false true (code_buffer st) (in_table st) (table_data st),
   [ln (Some 2%N)]).
Proof.
  intros Ha Hc Hf. rewrite loop_body_active by assumption.
  unfold is_fence in Hf. cbv zeta. now rewrite Hf, Hc.
Qed.

Lemma loop_body_close st line :
  active st line = true -> in_code_block st = true -> is_fence line = true ->
  loop_body st line =
  (LoopState false false [] (in_table st) (table_data st),
   emit_code (code_buffer st)).
Proof.
  intros Ha Hc Hf. rewrite loop_body_active by assumption.
  unfold is_fence in Hf. cbv zeta. now rewrite Hf, Hc.
Qed.

Lemma loop_body_buffer st line :
  active st line = true -> in_code_block st = true -> is_fence line = false ->
  loop_body st line =
  (LoopState false true (code_buffer st ++ [clean_emojis line]) (in_table st)
             (table_data st), []).
Proof.
  intros Ha Hc Hf. rewrite loop_body_active by assumption.
  unfold is_fence in Hf. cbv zeta. now rewrite Hf, Hc.
Qed.

Lemma loop_body_separator st line :
  active st line = true -> in_code_block st = false -> is_fence line = false ->
  is_separator line = true ->
  loop_body st line =
  (LoopState false false (code_buffer st) true (table_data st), []).
Proof.
  intros Ha Hc Hf Hs. rewrite loop_body_active by assumption.
  unfold is_fence in Hf. unfold is_separator in Hs. cbv zeta.
  now rewrite Hf, Hc, Hs.
Qed.

Lemma loop_body_row st line :
  active st line = true -> in_code_block st = false -> is_fence line = false ->
  is_separator line = false -> in_table st = true -> has_pipe line = true ->
  loop_body st line =
  (LoopState false false (code_buffer st) true
             (table_data st ++ [clean_emojis line]), []).
Proof.
  intros Ha Hc Hf Hs Ht Hp. rewrite loop_body_active by assumption.
  unfold is_fence in Hf. unfold is_separator in Hs. unfold has_pipe in Hp.
  cbv zeta. now rewrite Hf, Hc, Hs, Ht, Hp.
Qed.

Lemma loop_body_table_end st line :
  active st line = true -> in_code_block st = false -> is_fence line = false ->
  in_table st = true -> has_pipe line = false ->
  loop_body st line =
  (LoopState false false (code_buffer st) false [],
   emit_table (table_data st) ++ emit_line (clean_emojis line)).
Proof.
  intros Ha Hc Hf Ht Hp. rewrite loop_body_active by assumption.
  unfold is_fence in Hf. unfold has_pipe in Hp.
  cbv zeta. now rewrite Hf, Hc, Ht, Hp.
Qed.

Lemma loop_body_plain st line :
  active st line = true -> in_code_block st = false -> is_fence line = false ->
  is_separator line = false -> in_table st = false ->
  loop_body st line =
  (LoopState false false (code_buffer st) false (table_data st),
   emit_line (clean_emojis line)).
Proof.
  intros Ha Hc Hf Hs Ht. rewrite loop_body_active by assumption.
  unfold is_fence in Hf. unfold is_separator in Hs.
  cbv zeta. now rewrite Hf, Hc, Hs, Ht.
Qed.

Lemma body_loop_cons st line rest :
  body_loop st (line :: rest) =
  (fst (body_loop (fst (loop_body st line)) rest),
   snd (loop_body st line) ++ snd (body_loop (fst (loop_body st line)) rest)).
Proof.
  cbn [body_loop]. destruct (loop_body st line) as [st1 out1].
  cbn [fst snd]. now destruct (body_loop st1 rest).
Qed.

Lemma body_loop_app st l1 l2 :
  body_loop st (l1 ++ l2) =
  (fst (body_loop (fst (body_loop st l1)) l2),
   snd (body_loop st l1) ++ snd (body_loop (fst (body_loop st l1)) l2)).
Proof.
  revert st. induction l1 as [|line l1 IH]; intros st.
  - cbn [app body_loop fst snd]. now destruct (body_loop st l2).
  - rewrite <- app_comm_cons, !body_loop_cons, IH. cbn [fst snd].
    now rewrite app_assoc.
Qed.

(** Once the marker has been seen the loop never skips again. *)
Lemma active_started st line : skip_header st = false -> active st line = true.
Proof. unfold active. now intros ->. Qed.

(** Inside a code block every line that is not a fence is buffered and
    nothing is drawn. *)
Lemma body_loop_in_code lines : forall st,
  skip_header st = false -> in_code_block st = true ->
  Forall (fun l => is_fence l = false) lines ->
  body_loop st lines =
  (LoopState false true (code_buffer st ++ map clean_emojis lines)
             (in_table st) (table_data st), []).
Proof.
  induction lines as [|line lines IH]; intros st Hs Hc Hall.
  - cbn [body_loop map]. rewrite app_nil_r. destruct st; simpl in *. now subst.
  - inversion Hall; subst.
    rewrite body_loop_cons, loop_body_buffer
      by (try apply active_started; assumption).
    cbn [fst snd]. rewrite IH by (try assumption; reflexivity).
    cbn [fst snd code_buffer in_table table_data map].
    now rewrite <- app_assoc.
Qed.

Lemma loop_body_buffers_ok st line :
  buffers_ok st -> buffers_ok (fst (loop_body st line)).
Proof.
  intros [Hc Ht]. destruct (active st line) eqn:Ha.
  - rewrite loop_body_active by assumption. cbv zeta.
    repeat match goal with
           | |- context [if ?c then _ else _] => destruct c eqn:?
           end;
      split; cbn [fst in_code_block code_buffer in_table table_data];
      intros; try discriminate; try reflexivity; auto.
  - rewrite loop_body_skipped by assumption. now split.
Qed.

Lemma body_loop_buffers_ok lines : forall st,
  buffers_ok st -> buffers_ok (fst (body_loop st lines)).
Proof.
  induction lines as [|line lines IH]; intros st H; [exact H|].
  rewrite body_loop_cons. cbn [fst]. apply IH. now apply loop_body_buffers_ok.
Qed.

Lemma initial_state_buffers_ok : buffers_ok initial_state.
Proof. now split. Qed.

Lemma create_apa_pdf_eq content :
  create_apa_pdf content =
  front_matter (fst (process_document content))
  ++ snd (body_loop initial_state (snd (process_document content)))
  ++ references_section.
Proof.
  cbv beta iota zeta delta [create_apa_pdf process_document fst snd].
  reflexivity.
Qed.

Lemma emit_code_eq buffer :
  emit_code buffer = code_block_ops (map (firstn 70) buffer).
Proof.
  destruct buffer as [|l buffer]; [reflexivity|].
  cbn [emit_code code_block_ops map]. do 3 f_equal.
  - now destruct l.
  - rewrite map_map. apply map_ext. intros a. now destruct a.
Qed.

(** A whole code block, from a state outside any code block. *)
Lemma body_loop_code_block st open body close :
  active st open = true -> in_code_block st = false -> code_buffer st = [] ->
  is_fence open = true ->
  Forall (fun l => is_fence l = false) body ->
  is_fence close = true ->
  body_loop st (open :: body ++ [close]) =
  (LoopState false false [] (in_table st) (table_data st),
   [ln (Some 2%N)]
   ++ code_block_ops (map (fun l => firstn 70 (clean_emojis l)) body)).
Proof.
  intros Ha Hc Hbuf Hopen Hbody Hclose.
  rewrite body_loop_cons, loop_body_open by assumption.
  cbn [fst snd]. rewrite body_loop_app.
  rewrite (body_loop_in_code body (LoopState false true _ _ _))
    by (try assumption; reflexivity).
  cbn [fst snd code_buffer in_table table_data].
  rewrite body_loop_cons, loop_body_close
    by (try apply active_started; try assumption; reflexivity).
  cbn [fst snd code_buffer in_table table_data body_loop].
  rewrite Hbuf, app_nil_r. cbn [app]. now rewrite emit_code_eq, map_map.
Qed.

(** What [create_apa_pdf] draws for a segment of the document, given what
    the loop does on the segment from the state it has reached. *)
Lemma body_loop_focus st pre seg rest st' out :
  body_loop (fst (body_loop st pre)) seg = (st', out) ->
  snd (body_loop st (pre ++ seg ++ rest)) =
  snd (body_loop st pre) ++ out ++ snd (body_loop st' rest).
Proof.
  intros H. rewrite body_loop_app, (body_loop_app _ seg rest), H.
  reflexivity.
Qed.

Lemma create_apa_pdf_focus content pre seg rest st' out :
  snd (process_document content) = pre ++ seg ++ rest ->
  body_loop (fst (body_loop initial_state pre)) seg = (st', out) ->
  create_apa_pdf content =
  front_matter (fst (process_document content))
  ++ snd (body_loop initial_state pre)
  ++ out
  ++ snd (body_loop st' rest)
  ++ references_section.
Proof.
  intros Hlines H. rewrite create_apa_pdf_eq, Hlines.
  rewrite (body_loop_focus _ _ _ rest _ _ H).
  now rewrite <- !app_assoc.
Qed.

(** *** Tables *)












(** *** Paragraphs *)

Lemma emit_line_paragraph line :
  is_paragraph line = true ->
  emit_line line =
  if contains (utf8 "**") line then emit_inline line else emit_plain line.
Proof.
  unfold is_paragraph, emit_line. intros H.
  repeat (apply andb_prop in H as [H ?]).
  repeat match goal with
         | E : negb _ = true |- _ => apply negb_true_iff in E; rewrite E
         end.
  now replace (truthy (strip line)) with true.
Qed.

Lemma spans_from_inline (l : list (nat * str)) : forall bold,
  spans_from bold
    (flat_map (fun '(j, part) =>
                 set_font "Times" (if Nat.even j then "" else "B") 12
                 :: (if truthy part then [write 10 part] else [])) l
     ++ [ln (Some 10%N)])
  = flat_map (fun '(j, part) => if truthy part then [(Nat.odd j, part)] else []) l.
Proof.
  induction l as [|[j part] l IH]; intros bold; [reflexivity|].
  cbn [flat_map app spans_from]. rewrite <- Nat.negb_even.
  destruct (Nat.even j); destruct part as [|c part];
    cbn [truthy app spans_from String.eqb negb]; now rewrite IH.
Qed.

Lemma spans_written_inline line :
  spans_written (emit_inline line) = spans_of_parts (split (utf8 "**") line).
Proof. apply spans_from_inline. Qed.

Lemma spans_of_parts_snoc parts last :
  spans_of_parts (parts ++ [last])
  = spans_of_parts parts
    ++ (if truthy last then [(Nat.odd (length parts), last)] else []).
Proof.
  unfold spans_of_parts. rewrite enumerate_snoc, flat_map_app.
  cbn [flat_map]. now rewrite app_nil_r.
Qed.




(** *** Headings *)

Lemma emit_line_remap line :
  emit_line line =
  match remap_heading line with
  | Some (level, text) => heading_ops level (strip text)
  | None => body_ops line
  end.
Proof.
  unfold emit_line, remap_heading, body_ops.
  destruct (startswith (utf8 "## ") line); [reflexivity|].
  destruct (startswith (utf8 "### ") line); [reflexivity|].
  destruct (startswith (utf8 "#### ") line); reflexivity.
Qed.

Lemma adjust_heading_remap line :
  Html.adjust_heading line =
  match remap_heading line with
  | Some (level, text) => markdown_heading level text
  | None => line
  end.
Proof.
  unfold Html.adjust_heading, remap_heading.
  destruct (startswith (utf8 "## ") line); [reflexivity|].
  destruct (startswith (utf8 "### ") line); [reflexivity|].
  destruct (startswith (utf8 "#### ") line); reflexivity.
Qed.

End SimpleFacts.

Import SimpleFacts.

(** C10: a fence that is opened and never closed.  The lines after it are
    buffered, and nothing is drawn for them: after the line feed of the
    opening fence the output goes on with the reference section. *)
Theorem unterminated_fence_discarded (content : str)
    (pre : list str) (open : str) (rest : list str) :
  snd (Simple.process_document content) = pre ++ open :: rest ->
  active (fst (Simple.body_loop Simple.initial_state pre)) open = true ->
  Simple.in_code_block (fst (Simple.body_loop Simple.initial_state pre)) = false ->
  is_fence open = true ->
  Forall (fun l => is_fence l = false) rest ->
  Simple.create_apa_pdf content =
    Simple.front_matter (fst (Simple.process_document content))
    ++ snd (Simple.body_loop Simple.initial_state pre)
    ++ [ln (Some 2%N)]
    ++ Simple.references_section
  /\ Simple.code_buffer
       (fst (Simple.body_loop Simple.initial_state (pre ++ open :: rest)))
     = map Simple.clean_emojis rest.
Proof.
  intros Hlines Ha Hc Hopen Hrest.
  pose proof (body_loop_buffers_ok pre _ initial_state_buffers_ok) as [Hbuf _].
  specialize (Hbuf Hc).
  assert (E : Simple.body_loop Simple.initial_state (pre ++ open :: rest) =
              (Simple.LoopState false true (map Simple.clean_emojis rest)
                 (Simple.in_table (fst (Simple.body_loop Simple.initial_state pre)))
                 (Simple.table_data (fst (Simple.body_loop Simple.initial_state pre))),
               snd (Simple.body_loop Simple.initial_state pre) ++ [ln (Some 2%N)])).
  { rewrite body_loop_app, body_loop_cons, loop_body_open by assumption.
    cbn [fst snd]. rewrite body_loop_in_code by (try assumption; reflexivity).
    cbn [fst snd Simple.code_buffer Simple.in_table Simple.table_data].
    now rewrite Hbuf, app_nil_r. }
  split.
  - rewrite create_apa_pdf_eq, Hlines, E. cbn [snd]. now rewrite <- app_assoc.
  - now rewrite E.
Qed.

Lemma unterminated_fence_discarded_witness :
  Simple.create_apa_pdf unterminated_doc =
    Simple.front_matter (fst (Simple.process_document unterminated_doc))
    ++ snd (Simple.body_loop Simple.initial_state
              [utf8 "## Objetivo"; utf8 "texto"])
    ++ [ln (Some 2%N)]
    ++ Simple.references_section
  /\ Simple.code_buffer
       (fst (Simple.body_loop Simple.initial_state
               ([utf8 "## Objetivo"; utf8 "texto"]
                ++ utf8 "```" :: [utf8 "x = 1"; utf8 "y = 2"])))
     = map Simple.clean_emojis [utf8 "x = 1"; utf8 "y = 2"].
Proof.
  apply (unterminated_fence_discarded unterminated_doc
           [utf8 "## Objetivo"; utf8 "texto"] (utf8 "```")
           [utf8 "x = 1"; utf8 "y = 2"]);
    try by_compute.
  forall_by_compute.
Defined.

(** C2, as the code has it: the lines between an opening and a closing
    fence, as [process_document] has read them, are drawn in order as one
    code block, each with the code points of the emoji class removed and
    cut to its first 70 code points. *)
Theorem code_block_drawn (content : str)
    (pre : list str) (open : str) (body : list str) (close : str)
    (rest : list str) :
  snd (Simple.process_document content) = pre ++ open :: body ++ close :: rest ->
  active (fst (Simple.body_loop Simple.initial_state pre)) open = true ->
  Simple.in_code_block (fst (Simple.body_loop Simple.initial_state pre)) = false ->
  is_fence open = true ->
  Forall (fun l => is_fence l = false) body ->
  is_fence close = true ->
  Simple.create_apa_pdf content =
    Simple.front_matter (fst (Simple.process_document content))
    ++ snd (Simple.body_loop Simple.initial_state pre)
    ++ [ln (Some 2%N)]
    ++ code_block_ops (map (fun l => firstn 70 (Simple.clean_emojis l)) body)
    ++ snd (Simple.body_loop
              (Simple.LoopState false false []
                 (Simple.in_table (fst (Simple.body_loop Simple.initial_state pre)))
                 (Simple.table_data (fst (Simple.body_loop Simple.initial_state pre))))
              rest)
    ++ Simple.references_section.
Proof.
  intros Hlines Ha Hc Hopen Hbody Hclose.
  pose proof (body_loop_buffers_ok pre _ initial_state_buffers_ok) as [Hbuf _].
  specialize (Hbuf Hc).
  assert (Hseg : snd (Simple.process_document content)
                 = pre ++ (open :: body ++ [close]) ++ rest).
  { rewrite Hlines. cbn [app]. now rewrite <- app_assoc. }
  rewrite (create_apa_pdf_focus content pre _ rest _ _ Hseg
             (body_loop_code_block _ open body close
                Ha Hc Hbuf Hopen Hbody Hclose)).
  now rewrite <- !app_assoc.
Qed.

Lemma code_block_drawn_witness :
  Simple.create_apa_pdf fenced_doc =
    Simple.front_matter (fst (Simple.process_document fenced_doc))
    ++ snd (Simple.body_loop Simple.initial_state [utf8 "## Objetivo"])
    ++ [ln (Some 2%N)]
    ++ code_block_ops
         (map (fun l => firstn 70 (Simple.clean_emojis l))
              [utf8 "print('✅ listo')";
               utf8 "# 34567890123456789012345678901234567890123456789012345678901234567890 sobra"])
    ++ snd (Simple.body_loop
              (Simple.LoopState false false []
                 (Simple.in_table
                    (fst (Simple.body_loop Simple.initial_state [utf8 "## Objetivo"])))
                 (Simple.table_data
                    (fst (Simple.body_loop Simple.initial_state [utf8 "## Objetivo"]))))
              [])
    ++ Simple.references_section.
Proof.
  apply (code_block_drawn fenced_doc [utf8 "## Objetivo"] (utf8 "```")
           [utf8 "print('✅ listo')";
            utf8 "# 34567890123456789012345678901234567890123456789012345678901234567890 sobra"]
           (utf8 "```") []);
    try by_compute.
  forall_by_compute.
Defined.

(** C2 as stated fails: of the two lines between the fences of
    [fenced_doc], the first is drawn without its glyph and the second
    without the code points after the 70th. *)
Lemma code_block_not_verbatim :
  snd (Simple.process_document fenced_doc) =
    [utf8 "## Objetivo"; utf8 "```";
     utf8 "print('✅ listo')";
     utf8 "# 34567890123456789012345678901234567890123456789012345678901234567890 sobra";
     utf8 "```"]
  /\ code_lines_drawn (Simple.create_apa_pdf fenced_doc) =
       [utf8 "print(' listo')";
        utf8 "# 34567890123456789012345678901234567890123456789012345678901234567890"]
  /\ code_lines_drawn (Simple.create_apa_pdf fenced_doc) <>
       [utf8 "print('✅ listo')";
        utf8 "# 34567890123456789012345678901234567890123456789012345678901234567890 sobra"].
Proof.
  split; [vm_compute; reflexivity|].
  split; [vm_compute; reflexivity|].
  vm_compute. discriminate.
Qed.




(** C4, as the code has it: a paragraph line with an odd number of [**]
    delimiters is split at every delimiter; no delimiter is written, the
    non-empty parts are written alternately regular and bold, and the text
    after the last (unmatched) delimiter is written in bold.  [parts] are
    the parts before the last delimiter, as many as there are
    delimiters. *)
Theorem unmatched_bold_written_bold (st : Simple.loop_state) (line : str)
    (parts : list str) (last : str) :
  active st line = true ->
  Simple.in_code_block st = false -> Simple.in_table st = false ->
  is_fence line = false -> is_separator line = false ->
  is_paragraph (Simple.clean_emojis line) = true ->
  split (utf8 "**") (Simple.clean_emojis line) = parts ++ [last] ->
  Nat.odd (length parts) = true ->
  spans_written (snd (Simple.loop_body st line))
  = spans_of_parts parts ++ (if truthy last then [(true, last)] else []).
Proof.
  intros Ha Hc Ht Hf Hs Hp Hsplit Hodd.
  rewrite loop_body_plain by assumption. cbn [snd].
  rewrite emit_line_paragraph by assumption.
  destruct (contains (utf8 "**") (Simple.clean_emojis line)) eqn:E.
  - now rewrite spans_written_inline, Hsplit, spans_of_parts_snoc, Hodd.
  - rewrite split_absent in Hsplit by (discriminate || assumption).
    destruct parts as [|p [|q parts]]; discriminate.
Qed.

Lemma unmatched_bold_written_bold_witness :
  spans_written (snd (Simple.loop_body started (utf8 "a **b")))
  = spans_of_parts [utf8 "a "] ++ (if truthy (utf8 "b") then [(true, utf8 "b")] else []).
Proof.
  apply (unmatched_bold_written_bold started (utf8 "a **b") [utf8 "a "] (utf8 "b"));
    by_compute.
Defined.

(** C4 as stated fails: the line [a **b] is written as a regular [a ] and
    a bold [b], not as a regular [a ] and a regular [**b]. *)
Lemma unmatched_bold_not_literal :
  spans_written
    (snd (Simple.body_loop Simple.initial_state
            (snd (Simple.process_document unmatched_doc))))
  = [(false, utf8 "a "); (true, utf8 "b")]
  /\ spans_written
       (snd (Simple.body_loop Simple.initial_state
               (snd (Simple.process_document unmatched_doc))))
     <> [(false, utf8 "a "); (false, utf8 "**b")].
Proof.
  split; [by_compute|]. vm_compute. discriminate.
Qed.




(** C8, as the code has it.  The remapping is decided on the line after the
    glyph substitution of the variant.  HTML variant: every line the loop
    goes past its skipping test on is remapped when it then starts with one
    of the three prefixes, and is left as it is otherwise.  Direct-layout
    variant: the same for the lines that reach the heading chain, that is
    outside a code block, other than fence and separator lines and other
    than table rows (the rows of a table that ends on the line are drawn
    first); the heading text is the remainder stripped of white space. *)
Theorem heading_levels_shifted (skip_header : bool) (st : Simple.loop_state)
    (line : str) :
  (skip_header = false \/ startswith (utf8 "## 🎯 Objetivo") line = true ->
   Html.loop_body skip_header line =
   (false,
    [match remap_heading (Html.emoji_to_text line) with
     | Some (level, text) => markdown_heading level text
     | None => Html.emoji_to_text line
     end]))
  /\ (active st line = true ->
      Simple.in_code_block st = false ->
      is_fence line = false -> is_separator line = false ->
      (Simple.in_table st = true -> has_pipe line = false) ->
      snd (Simple.loop_body st line) =
      (if Simple.in_table st then Simple.emit_table (Simple.table_data st) else [])
      ++ match remap_heading (Simple.clean_emojis line) with
         | Some (level, text) => heading_ops level (strip text)
         | None => body_ops (Simple.clean_emojis line)
         end).
Proof.
  split.
  - intros H. unfold Html.loop_body. rewrite adjust_heading_remap.
    destruct H as [-> | ->]; [reflexivity|].
    now rewrite andb_false_r.
  - intros Ha Hc Hf Hs Hp. rewrite <- emit_line_remap.
    destruct (Simple.in_table st) eqn:Ht.
    + now rewrite loop_body_table_end by (try apply Hp; trivial).
    + now rewrite loop_body_plain by assumption.
Qed.

Lemma heading_levels_shifted_witness :
  Html.loop_body true (utf8 "## 🎯 Objetivo") = (false, [utf8 "#  Objetivo"])
  /\ snd (Simple.loop_body started (utf8 "### Alcance ✅ ")) =
     heading_ops 2 (utf8 "Alcance").
Proof.
  destruct (heading_levels_shifted true started (utf8 "## 🎯 Objetivo"))
    as [H1 _].
  destruct (heading_levels_shifted true started (utf8 "### Alcance ✅ "))
    as [_ H2].
  split.
  - rewrite H1 by (right; by_compute). by_compute.
  - rewrite H2 by (try by_compute; discriminate). by_compute.
Defined.

(** C8 as stated fails in the direct-layout variant: the third line of
    [heading_in_code_doc] comes after the marker and starts with [## ], and
    no heading is drawn for it; it is drawn as a line of code. *)
Lemma heading_in_code_block_not_remapped :
  snd (Simple.process_document heading_in_code_doc)
    = [utf8 "## Objetivo"; utf8 "```"; utf8 "## x"; utf8 "```"]
  /\ headings_drawn (Simple.create_apa_pdf heading_in_code_doc)
     = [(1, utf8 "Objetivo")]
  /\ code_lines_drawn (Simple.create_apa_pdf heading_in_code_doc)
     = [utf8 "## x"]
  /\ headings_drawn (Simple.create_apa_pdf heading_in_code_doc)
     <> [(1, utf8 "Objetivo"); (1, utf8 "x")].
Proof.
  repeat (split; [by_compute|]).
  vm_compute. discriminate.
Qed.

(** * Glyph substitution *)

Ltac side_condition :=
  solve [ intro; discriminate
        | vm_compute; intuition discriminate ].

Ltac push_barrier :=
  repeat ((rewrite replace_barrier by side_condition)
          || (rewrite replace_cons_barrier by side_condition)).

Lemma check_replaced_html :
  replaced_by Html.emoji_to_text (utf8 "✅") (utf8 "[Sí]").
Proof.
  intros pre post. unfold Html.emoji_to_text. cbv zeta.
  change (utf8 "✅" ++ post) with (9989%N :: post).
  push_barrier.
  change (utf8 "✅") with [9989%N]. rewrite replace_char_hit.
  change (utf8 "❌") with [10060%N]. rewrite !replace_char_app.
  reflexivity.
Qed.

Lemma cross_replaced_html :
  replaced_by Html.emoji_to_text (utf8 "❌") (utf8 "[No]").
Proof.
  intros pre post. unfold Html.emoji_to_text. cbv zeta.
  change (utf8 "❌" ++ post) with (10060%N :: post).
  push_barrier.
  change (utf8 "❌") with [10060%N]. rewrite replace_char_hit.
  reflexivity.
Qed.

Lemma tools_deleted_html :
  replaced_by Html.emoji_to_text (utf8 "🛠️") [].
Proof.
  intros pre post. unfold Html.emoji_to_text. cbv zeta.
  change (utf8 "🛠️" ++ post) with (128736%N :: 65039%N :: post).
  push_barrier.
  change (utf8 "🛠️") with [128736%N; 65039%N].
  rewrite replace_pair by discriminate.
  change (utf8 "🔬") with [128300%N]. change (utf8 "🔄") with [128260%N].
  change (utf8 "📝") with [128221%N]. change (utf8 "🔗") with [128279%N].
  change (utf8 "💭") with [128173%N]. change (utf8 "✅") with [9989%N].
  change (utf8 "❌") with [10060%N].
  rewrite !replace_char_app. reflexivity.
Qed.

Lemma late_deleted_html (g : char) :
  In g late_glyphs -> replaced_by Html.emoji_to_text [g] [].
Proof.
  intros Hg pre post. vm_compute in Hg.
  unfold Html.emoji_to_text. cbv zeta. cbn [app].
  repeat (destruct Hg as [<-|Hg]; [|]); [..|contradiction];
    push_barrier;
    change (utf8 "🔬") with [128300%N]; change (utf8 "🔄") with [128260%N];
    change (utf8 "📝") with [128221%N]; change (utf8 "🔗") with [128279%N];
    change (utf8 "💭") with [128173%N]; change (utf8 "✅") with [9989%N];
    change (utf8 "❌") with [10060%N];
    rewrite replace_char_hit; cbn [app];
    rewrite !replace_char_app; reflexivity.
Qed.

Lemma early_deleted_html (g : char) :
  In g early_glyphs -> deleted_first Html.emoji_to_text [g].
Proof.
  intros Hg pre post. vm_compute in Hg.
  unfold Html.emoji_to_text. cbv zeta. cbn [app].
  repeat (destruct Hg as [<-|Hg]; [|]); [..|contradiction];
    push_barrier;
    change (utf8 "🎯") with [127919%N]; change (utf8 "📚") with [128218%N];
    change (utf8 "🐍") with [128013%N]; change (utf8 "🔍") with [128269%N];
    change (utf8 "📊") with [128202%N];
    rewrite replace_char_hit; cbn [app];
    rewrite !replace_char_app; reflexivity.
Qed.

Lemma class_deleted_simple (g : char) :
  In g Simple.emoji_class -> replaced_by Simple.clean_emojis [g] [].
Proof.
  intros Hg pre post. unfold Simple.clean_emojis.
  rewrite !re_sub_class_app. cbn [app]. f_equal.
  vm_compute in Hg.
  repeat (destruct Hg as [<-|Hg]; [reflexivity|]). contradiction.
Qed.

(** C5, as the code has it.  HTML variant: every occurrence of the check
    mark is replaced by [[Sí]], of the cross by [[No]], and every occurrence
    of each other listed glyph by the empty string (five of them before the
    pair of code points of the tools glyph is looked for, the others after).
    Direct-layout variant: every code point of the listed glyphs, the check
    mark and the cross among them, is replaced by the empty string. *)
Theorem glyphs_substituted :
  replaced_by Html.emoji_to_text (utf8 "✅") (utf8 "[Sí]")
  /\ replaced_by Html.emoji_to_text (utf8 "❌") (utf8 "[No]")
  /\ Forall (fun g => deleted_first Html.emoji_to_text [g]) early_glyphs
  /\ replaced_by Html.emoji_to_text (utf8 "🛠️") []
  /\ Forall (fun g => replaced_by Html.emoji_to_text [g] []) late_glyphs
  /\ Forall (fun g => replaced_by Simple.clean_emojis [g] [])
            Simple.emoji_class.
Proof.
  split; [exact check_replaced_html|].
  split; [exact cross_replaced_html|].
  split; [apply Forall_forall; exact early_deleted_html|].
  split; [exact tools_deleted_html|].
  split; apply Forall_forall;
    [exact late_deleted_html|exact class_deleted_simple].
Qed.

(** C5 as stated fails in the direct-layout variant: the check mark and the
    cross are deleted like the other glyphs; the line [listo ✅] is drawn
    without any token. *)
Lemma check_mark_deleted_simple :
  ~ replaced_by Simple.clean_emojis (utf8 "✅") (utf8 "[Sí]")
  /\ ~ replaced_by Simple.clean_emojis (utf8 "❌") (utf8 "[No]")
  /\ texts_drawn (snd (Simple.loop_body started (utf8 "listo ✅")))
     = [utf8 "    listo "].
Proof.
  split; [|split; [|by_compute]];
    intros H; specialize (H [] []); vm_compute in H; discriminate.
Qed.

(** * The reference list *)

Module HtmlFacts.
Import Html.

Lemma body_loop_started lines : body_loop false lines = map transform lines.
Proof.
  induction lines as [|line lines IH]; [reflexivity|].
  cbn [body_loop map]. unfold loop_body. cbn [andb app]. now rewrite IH.
Qed.


End HtmlFacts.



(** * Label spellings *)

Module CleanFacts.
Import Simple.

Lemma replacements_ok : Forall rule_ok replacements.
Proof.
  unfold replacements.
  repeat (apply Forall_cons;
          [eexists; split; [by_compute|];
           split; [intro; discriminate|];
           split; vm_compute; intuition discriminate|]).
  apply Forall_nil.
Qed.

Lemma replace_char_lines (c : char) (new s : str) :
  c <> line_feed -> ~ In line_feed new ->
  split nl (replace [c] new s) = map (replace [c] new) (split nl s).
Proof.
  intros Hc Hnew. rewrite replace_char. unfold nl.
  rewrite split_flat_map.
  - apply map_ext. intros a. now rewrite replace_char.
  - cbv beta. apply char_eqb_neq in Hc. unfold line_feed in Hc.
    now rewrite Hc.
  - intros x Hx. cbv beta. destruct (char_eqb c x); [exact Hnew|].
    intros [E|[]]. now apply Hx.
Qed.


Lemma apply_rules_app rules : Forall rule_ok rules -> forall a b,
  apply_rules rules (a ++ b) = apply_rules rules a ++ apply_rules rules b.
Proof.
  induction 1 as [|[old new] rules (c & E & _) H IH]; intros a b; [reflexivity|].
  cbn [fst] in E. subst old. cbn [apply_rules fold_left].
  rewrite replace_char_app. apply IH.
Qed.

Lemma apply_rules_lines rules : Forall rule_ok rules -> forall s,
  split nl (apply_rules rules s) = map (apply_rules rules) (split nl s).
Proof.
  induction 1 as [|[old new] rules (c & E & Hc & Hnl & _) H IH]; intros s.
  - cbn [apply_rules fold_left]. now rewrite map_id.
  - cbn [fst snd] in *. subst old. cbn [apply_rules fold_left].
    fold (apply_rules rules (replace [c] new s)).
    rewrite IH, replace_char_lines, map_map by assumption.
    reflexivity.
Qed.


Lemma clean_text_rules s : clean_text s = apply_rules replacements s.
Proof. unfold clean_text, apply_rules. reflexivity. Qed.

Lemma clean_text_app a b : clean_text (a ++ b) = clean_text a ++ clean_text b.
Proof.
  rewrite (clean_text_rules (a ++ b)), (clean_text_rules a), (clean_text_rules b).
  apply (apply_rules_app _ replacements_ok).
Qed.

Lemma clean_text_lines s :
  split nl (clean_text s) = map clean_text (split nl s).
Proof.
  rewrite (clean_text_rules s), (apply_rules_lines _ replacements_ok).
  apply map_ext. intros a. symmetry. apply clean_text_rules.
Qed.


End CleanFacts.

Import CleanFacts.










(** * Further properties of the two scripts *)

(** The list of a [Forall] goal, evaluated. *)
Ltac evaluated_list :=
  match goal with
  | |- Forall ?P ?l =>
    let l' := eval vm_compute in l in
    replace l with l' by (vm_compute; reflexivity)
  end.

(** ** Metadata *)

(** A field no scanned line is read as stays empty: nothing is raised for
    a missing label. *)
Theorem missing_field_empty (v : variant) (content : str) (f : field) :
  Forall (fun l => field_of v l <> Some f) (scanned_lines v content) ->
  get f (extract_metadata v content) = [].
Proof.
  intros H. rewrite extract_metadata_fold.
  rewrite (fold_left_no_write (scan v) (get f) (reads_as v f) (value_of v f)).
  - now destruct f.
  - intros m a. apply scan_get.
  - eapply Forall_impl; [|exact H]. intros a Ha. now apply reads_as_false.
Qed.

Lemma missing_field_empty_witness :
  get Course (extract_metadata HtmlCss no_marker_doc) = []
  /\ get Course (extract_metadata DirectLayout no_marker_doc) = [].
Proof.
  split; apply missing_field_empty; evaluated_list;
    repeat (apply Forall_cons; [vm_compute; discriminate|]); apply Forall_nil.
Defined.

(** ** The skipped header *)

Lemma snd_body_loop_app st l1 l2 :
  snd (Simple.body_loop st (l1 ++ l2))
  = snd (Simple.body_loop st l1)
    ++ snd (Simple.body_loop (fst (Simple.body_loop st l1)) l2).
Proof. now rewrite body_loop_app. Qed.

Lemma body_loop_skipping pre : forall rest,
  Forall (fun l => is_marker l = false) pre ->
  Simple.body_loop Simple.initial_state (pre ++ rest)
  = Simple.body_loop Simple.initial_state rest.
Proof.
  induction pre as [|l pre IH]; intros rest H; [reflexivity|].
  inversion H; subst. cbn [app].
  rewrite body_loop_cons, loop_body_skipped by assumption.
  cbn [fst snd app]. rewrite IH by assumption.
  now destruct (Simple.body_loop Simple.initial_state rest).
Qed.

(** Direct-layout variant: the lines before the first line that holds the
    marker draw nothing, whatever they are (fences, table rows, headings);
    a document without the marker gives the front matter followed at once
    by the reference section. *)
Theorem header_lines_draw_nothing (content : str) (pre rest : list str) :
  snd (Simple.process_document content) = pre ++ rest ->
  Forall (fun l => is_marker l = false) pre ->
  Simple.create_apa_pdf content =
    Simple.front_matter (fst (Simple.process_document content))
    ++ snd (Simple.body_loop Simple.initial_state rest)
    ++ Simple.references_section.
Proof.
  intros Hlines Hpre. rewrite create_apa_pdf_eq, Hlines.
  now rewrite body_loop_skipping.
Qed.

Lemma header_lines_draw_nothing_witness :
  Simple.create_apa_pdf no_marker_doc =
    Simple.front_matter (fst (Simple.process_document no_marker_doc))
    ++ snd (Simple.body_loop Simple.initial_state [])
    ++ Simple.references_section.
Proof.
  apply (header_lines_draw_nothing no_marker_doc
           [utf8 "# Titulo"; utf8 "**Estudiante:** Ana";
            utf8 "texto sin seccion"] []);
    [by_compute | forall_by_compute].
Defined.

Lemma html_body_loop_skipping pre : forall rest,
  Forall (fun l => html_marker l = false) pre ->
  Html.body_loop true (pre ++ rest) = Html.body_loop true rest.
Proof.
  induction pre as [|l pre IH]; intros rest H; [reflexivity|].
  inversion H as [|? ? Hl Hpre]; subst. cbn [app Html.body_loop].
  unfold Html.loop_body. unfold html_marker in Hl. rewrite Hl.
  cbn [andb negb app]. now apply IH.
Qed.

Lemma html_body_from_marker (content : str)
    (pre : list str) (marker_line : str) (rest : list str) :
  split nl content = pre ++ marker_line :: rest ->
  Forall (fun l => html_marker l = false) pre ->
  html_marker marker_line = true ->
  Html.process_markdown_for_apa content =
    Html.apa_content (extract_metadata HtmlCss content)
    ++ join nl (map HtmlViews.transform (marker_line :: rest)).
Proof.
  intros Hlines Hpre Hm. unfold Html.process_markdown_for_apa. cbv zeta.
  cbn [extract_metadata]. f_equal. rewrite Hlines.
  rewrite html_body_loop_skipping by assumption.
  cbn [Html.body_loop]. unfold Html.loop_body. unfold html_marker in Hm.
  rewrite Hm. cbn [andb negb app map].
  now rewrite HtmlFacts.body_loop_started.
Qed.

(** HTML variant: the body of the markup is made of the lines from the
    first line that starts with the marker on, that line included, each
    transformed; no later line is skipped. *)
Theorem html_body_starts_at_marker (content : str)
    (pre : list str) (marker_line : str) (rest : list str) :
  split nl content = pre ++ marker_line :: rest ->
  Forall (fun l => html_marker l = false) pre ->
  html_marker marker_line = true ->
  Html.process_markdown_for_apa content =
    Html.apa_content (extract_metadata HtmlCss content)
    ++ join nl (map HtmlViews.transform (marker_line :: rest)).
Proof. apply html_body_from_marker. Qed.

Lemma html_body_starts_at_marker_witness :
  Html.process_markdown_for_apa marker_doc =
    Html.apa_content (extract_metadata HtmlCss marker_doc)
    ++ join nl (map HtmlViews.transform
                    (utf8 "## 🎯 Objetivo"
                     :: [utf8 "### Alcance ✅"; utf8 "fin"])).
Proof.
  apply (html_body_starts_at_marker marker_doc
           [utf8 "# Titulo"; utf8 "intro"] (utf8 "## 🎯 Objetivo")
           [utf8 "### Alcance ✅"; utf8 "fin"]);
    [by_compute | forall_by_compute | by_compute].
Defined.

(** HTML variant: when no line starts with the marker (the heading written
    without its glyph is not the marker), the markup is the title and
    abstract template alone. *)
Theorem html_no_marker_no_body (content : str) :
  Forall (fun l => html_marker l = false) (split nl content) ->
  Html.process_markdown_for_apa content =
    Html.apa_content (extract_metadata HtmlCss content).
Proof.
  intros H. unfold Html.process_markdown_for_apa. cbv zeta.
  cbn [extract_metadata].
  rewrite <- (app_nil_r (split nl content)) at 2.
  rewrite html_body_loop_skipping by assumption.
  cbn [Html.body_loop join]. now rewrite app_nil_r.
Qed.

Lemma html_no_marker_no_body_witness :
  Html.process_markdown_for_apa (utf8 "intro
## Objetivo
texto") =
    Html.apa_content (extract_metadata HtmlCss (utf8 "intro
## Objetivo
texto")).
Proof.
  apply html_no_marker_no_body. evaluated_list. forall_by_compute.
Defined.

(** ** The loop variables *)

Lemma loop_body_started st line :
  active st line = true ->
  Simple.skip_header (fst (Simple.loop_body st line)) = false.
Proof.
  intros Ha. rewrite loop_body_active by assumption. cbv zeta.
  repeat match goal with
         | |- context [if ?c then _ else _] => destruct c
         end; reflexivity.
Qed.

Lemma loop_body_reachable st line :
  reachable_ok st -> reachable_ok (fst (Simple.loop_body st line)).
Proof.
  intros [Hskip Hbuf]. split; [|now apply loop_body_buffers_ok].
  destruct (active st line) eqn:Ha.
  - rewrite loop_body_started by assumption. discriminate.
  - now rewrite loop_body_skipped by assumption.
Qed.

(** Direct-layout variant: after any number of rounds on any lines, the
    loop either still skips and has changed nothing, or has stopped
    skipping for good; outside a code block the code buffer is empty and
    outside a table the row buffer is empty. *)
Theorem loop_state_invariant (lines : list str) :
  reachable_ok (fst (Simple.body_loop Simple.initial_state lines)).
Proof.
  assert (G : forall st, reachable_ok st ->
                         reachable_ok (fst (Simple.body_loop st lines))).
  { induction lines as [|line lines IH]; intros st H; [exact H|].
    rewrite body_loop_cons. cbn [fst]. apply IH.
    now apply loop_body_reachable. }
  apply G. split; [reflexivity|apply initial_state_buffers_ok].
Qed.

(** ** A table the document ends in *)

Lemma body_loop_open_table rows : forall st,
  Simple.skip_header st = false -> Simple.in_code_block st = false ->
  Simple.in_table st = true ->
  Forall (fun l => is_fence l = false /\ has_pipe l = true) rows ->
  snd (Simple.body_loop st rows) = [].
Proof.
  induction rows as [|row rows IH]; intros st Hs Hc Ht Hall; [reflexivity|].
  inversion Hall as [|? ? [Hf Hp] Hrest]; subst.
  rewrite body_loop_cons. destruct (is_separator row) eqn:E.
  - rewrite loop_body_separator
      by (try apply active_started; assumption).
    cbn [fst snd app]. now apply IH.
  - rewrite loop_body_row by (try apply active_started; assumption).
    cbn [fst snd app]. now apply IH.
Qed.

(** Direct-layout variant: the rows after a separator line are drawn only
    when a line without a pipe follows.  When the document ends in the
    table, its rows are buffered and never drawn: the reference section
    follows what was drawn before the separator. *)
Theorem unterminated_table_discarded (content : str)
    (pre : list str) (sep : str) (rows : list str) :
  snd (Simple.process_document content) = pre ++ sep :: rows ->
  active (fst (Simple.body_loop Simple.initial_state pre)) sep = true ->
  Simple.in_code_block (fst (Simple.body_loop Simple.initial_state pre)) = false ->
  is_fence sep = false -> is_separator sep = true ->
  Forall (fun l => is_fence l = false /\ has_pipe l = true) rows ->
  Simple.create_apa_pdf content =
    Simple.front_matter (fst (Simple.process_document content))
    ++ snd (Simple.body_loop Simple.initial_state pre)
    ++ Simple.references_section.
Proof.
  intros Hlines Ha Hc Hf Hs Hrows.
  assert (E : snd (Simple.body_loop
                     (fst (Simple.body_loop Simple.initial_state pre))
                     (sep :: rows)) = []).
  { rewrite body_loop_cons, loop_body_separator by assumption.
    cbn [fst snd app]. now apply body_loop_open_table. }
  rewrite create_apa_pdf_eq, Hlines, snd_body_loop_app, E.
  now rewrite app_nil_r.
Qed.

Lemma unterminated_table_discarded_witness :
  Simple.create_apa_pdf open_table_doc =
    Simple.front_matter (fst (Simple.process_document open_table_doc))
    ++ snd (Simple.body_loop Simple.initial_state [utf8 "## Objetivo"])
    ++ Simple.references_section.
Proof.
  apply (unterminated_table_discarded open_table_doc
           [utf8 "## Objetivo"] (utf8 "|---|---|")
           [utf8 "| 1 | a |"; utf8 "| 2 | b |"]);
    try by_compute.
  repeat (apply Forall_cons; [split; by_compute|]). apply Forall_nil.
Defined.

(** ** Page breaks and bounds of what is drawn *)











Lemma flat_map_nil_all {A B} (f : A -> list B) (l : list A) :
  (forall x, f x = []) -> flat_map f l = [].
Proof.
  intros H. induction l as [|x l IH]; [reflexivity|].
  cbn [flat_map]. now rewrite H, IH.
Qed.

Lemma flat_map_of_map {A B C} (g : B -> list C) (f : A -> B) (l : list A) :
  flat_map g (map f l) = flat_map (fun x => g (f x)) l.
Proof.
  induction l as [|x l IH]; [reflexivity|].
  cbn [map flat_map]. now rewrite IH.
Qed.

Lemma flat_map_of_flat_map {A B C} (g : B -> list C) (f : A -> list B)
    (l : list A) :
  flat_map g (flat_map f l) = flat_map (fun x => flat_map g (f x)) l.
Proof.
  induction l as [|x l IH]; [reflexivity|].
  cbn [flat_map]. now rewrite flat_map_app, IH.
Qed.

Lemma flat_map_singleton {A B} (f : A -> B) (l : list A) :
  flat_map (fun x => [f x]) l = map f l.
Proof.
  induction l as [|x l IH]; [reflexivity|].
  cbn [map flat_map app]. now rewrite IH.
Qed.

Lemma code_lines_emit_code buffer :
  code_lines_drawn (Simple.emit_code buffer) = map (firstn 70) buffer.
Proof.
  destruct buffer as [|l buffer]; [reflexivity|].
  unfold Simple.emit_code, code_lines_drawn.
  set (buf := l :: buffer). cbn [app flat_map].
  rewrite flat_map_app, flat_map_of_map. cbn [flat_map app].
  rewrite app_nil_r, <- flat_map_singleton.
  apply flat_map_ext. intros a. now destruct a.
Qed.

Lemma code_lines_emit_table rows :
  code_lines_drawn (Simple.emit_table rows) = [].
Proof.
  destruct rows as [|r rows]; [reflexivity|].
  unfold Simple.emit_table, code_lines_drawn. cbn [flat_map app].
  rewrite flat_map_of_flat_map. apply flat_map_nil_all. intros row.
  unfold Simple.emit_row. rewrite flat_map_app, flat_map_of_map.
  cbn [flat_map app]. rewrite app_nil_r. now apply flat_map_nil_all.
Qed.

Lemma code_lines_emit_line line :
  code_lines_drawn (Simple.emit_line line) = [].
Proof.
  unfold Simple.emit_line.
  repeat match goal with
         | |- context [if ?c then _ else _] => destruct c
         end; try reflexivity.
  - unfold Simple.emit_inline, code_lines_drawn.
    rewrite flat_map_app, flat_map_of_flat_map. cbn [flat_map app].
    rewrite app_nil_r. apply flat_map_nil_all. intros [j part].
    now destruct (truthy part).
  - unfold Simple.emit_plain. cbv zeta.
    destruct (200 <? length (Simple.apa_indent line)); [|reflexivity].
    unfold code_lines_drawn. rewrite flat_map_of_flat_map.
    apply flat_map_nil_all. intros chunk.
    now destruct (truthy (strip chunk)).
Qed.

Lemma code_lines_app a b :
  code_lines_drawn (a ++ b) = code_lines_drawn a ++ code_lines_drawn b.
Proof. apply flat_map_app. Qed.

Lemma code_lines_loop_body st line :
  Forall (fun t => length t <= 70)
         (code_lines_drawn (snd (Simple.loop_body st line))).
Proof.
  destruct (active st line) eqn:Ha.
  - rewrite loop_body_active by assumption. cbv zeta.
    repeat match goal with
           | |- context [if ?c then _ else _] => destruct c
           end;
      cbn [snd];
      rewrite ?code_lines_app, ?code_lines_emit_table, ?code_lines_emit_line;
      try (cbn; constructor).
    rewrite code_lines_emit_code. apply Forall_map, Forall_forall.
    intros x _. rewrite length_firstn. lia.
  - rewrite loop_body_skipped by assumption. constructor.
Qed.

Lemma code_lines_body_loop lines : forall st,
  Forall (fun t => length t <= 70)
         (code_lines_drawn (snd (Simple.body_loop st lines))).
Proof.
  induction lines as [|line lines IH]; intros st; [constructor|].
  rewrite body_loop_cons. cbn [snd]. rewrite code_lines_app.
  apply Forall_app. split; [apply code_lines_loop_body|apply IH].
Qed.

Lemma table_cells_app a b :
  table_cells_drawn (a ++ b) = table_cells_drawn a ++ table_cells_drawn b.
Proof. apply flat_map_app. Qed.

Lemma table_cells_emit_code buffer :
  table_cells_drawn (Simple.emit_code buffer) = [].
Proof.
  destruct buffer as [|l buffer]; [reflexivity|].
  unfold Simple.emit_code, table_cells_drawn.
  set (buf := l :: buffer). cbn [app flat_map].
  rewrite flat_map_app, flat_map_of_map. cbn [flat_map app].
  rewrite app_nil_r. now apply flat_map_nil_all.
Qed.

Lemma table_cells_emit_line line :
  table_cells_drawn (Simple.emit_line line) = [].
Proof.
  unfold Simple.emit_line.
  repeat match goal with
         | |- context [if ?c then _ else _] => destruct c
         end; try reflexivity.
  - unfold Simple.emit_inline, table_cells_drawn.
    rewrite flat_map_app, flat_map_of_flat_map. cbn [flat_map app].
    rewrite app_nil_r. apply flat_map_nil_all. intros [j part].
    now destruct (truthy part).
  - unfold Simple.emit_plain. cbv zeta.
    destruct (200 <? length (Simple.apa_indent line)); [|reflexivity].
    unfold table_cells_drawn. rewrite flat_map_of_flat_map.
    apply flat_map_nil_all. intros chunk.
    now destruct (truthy (strip chunk)).
Qed.

Lemma table_cells_emit_row row :
  table_cells_drawn (Simple.emit_row row) = cells_of_row row.
Proof.
  unfold Simple.emit_row, table_cells_drawn, cells_of_row.
  rewrite flat_map_app, flat_map_of_map. cbn [flat_map app].
  rewrite app_nil_r. apply flat_map_singleton.
Qed.

Lemma cells_of_row_short row :
  Forall (fun c => length c <= 20) (cells_of_row row).
Proof.
  unfold cells_of_row. apply Forall_map, Forall_forall.
  intros x _. rewrite length_firstn. lia.
Qed.

Lemma table_cells_emit_table rows :
  Forall (fun c => length c <= 20)
         (table_cells_drawn (Simple.emit_table rows)).
Proof.
  destruct rows as [|r rows]; [constructor|].
  unfold Simple.emit_table, table_cells_drawn. cbn [flat_map app].
  generalize (firstn 5 (r :: rows)). intros l.
  induction l as [|row l IH]; [constructor|].
  cbn [flat_map]. rewrite flat_map_app. apply Forall_app. split; [|exact IH].
  change (Forall (fun c => length c <= 20)
                 (table_cells_drawn (Simple.emit_row row))).
  rewrite table_cells_emit_row. apply cells_of_row_short.
Qed.

Lemma table_cells_loop_body st line :
  Forall (fun c => length c <= 20)
         (table_cells_drawn (snd (Simple.loop_body st line))).
Proof.
  destruct (active st line) eqn:Ha.
  - rewrite loop_body_active by assumption. cbv zeta.
    repeat match goal with
           | |- context [if ?c then _ else _] => destruct c
           end;
      cbn [snd];
      rewrite ?table_cells_app, ?table_cells_emit_code, ?table_cells_emit_line,
              ?app_nil_r;
      try apply table_cells_emit_table; try (cbn; constructor).
  - rewrite loop_body_skipped by assumption. constructor.
Qed.

Lemma table_cells_body_loop lines : forall st,
  Forall (fun c => length c <= 20)
         (table_cells_drawn (snd (Simple.body_loop st lines))).
Proof.
  induction lines as [|line lines IH]; intros st; [constructor|].
  rewrite body_loop_cons. cbn [snd]. rewrite table_cells_app.
  apply Forall_app. split; [apply table_cells_loop_body|apply IH].
Qed.

(** Direct-layout variant: whatever the document, no line of code is drawn
    with more than 70 code points and no table cell with more than 20. *)
Theorem drawn_texts_bounded (content : str) :
  Forall (fun t => length t <= 70)
         (code_lines_drawn (Simple.create_apa_pdf content))
  /\ Forall (fun c => length c <= 20)
            (table_cells_drawn (Simple.create_apa_pdf content)).
Proof.
  rewrite create_apa_pdf_eq. split.
  - rewrite !code_lines_app.
    change (code_lines_drawn (Simple.front_matter
                                (fst (Simple.process_document content))))
      with (@nil str).
    change (code_lines_drawn Simple.references_section) with (@nil str).
    rewrite app_nil_r. apply code_lines_body_loop.
  - rewrite !table_cells_app.
    change (table_cells_drawn (Simple.front_matter
                                 (fst (Simple.process_document content))))
      with (@nil str).
    change (table_cells_drawn Simple.references_section) with (@nil str).
    rewrite app_nil_r. apply table_cells_body_loop.
Qed.

Lemma rows_drawn_from_row cells : forall cur rest,
  rows_drawn_from cur (map (fun c => cell 60 8 c 1 0 "C") cells
                       ++ ln None :: rest)
  = (cur ++ cells) :: rows_drawn_from [] rest.
Proof.
  induction cells as [|c cells IH]; intros cur rest.
  - cbn [map app rows_drawn_from]. now rewrite app_nil_r.
  - cbn [map app rows_drawn_from]. rewrite IH. now rewrite <- app_assoc.
Qed.

Lemma emit_row_cells row :
  Simple.emit_row row
  = map (fun c => cell 60 8 c 1 0 "C") (cells_of_row row) ++ [ln None].
Proof. unfold Simple.emit_row, cells_of_row. now rewrite map_map. Qed.

Lemma rows_drawn_rows rows :
  rows_drawn_from [] (flat_map Simple.emit_row rows) = map cells_of_row rows.
Proof.
  induction rows as [|row rows IH]; [reflexivity|].
  cbn [flat_map map]. rewrite emit_row_cells, <- app_assoc. cbn [app].
  now rewrite rows_drawn_from_row, IH.
Qed.

(** Direct-layout variant: whatever rows are buffered when a table ends,
    the rows drawn are the first five, each with the first three of the
    cells between its first and its last pipe. *)
Theorem table_flush_bounded (table_data : list str) :
  rows_drawn (Simple.emit_table table_data)
    = map cells_of_row (firstn 5 table_data)
  /\ length (rows_drawn (Simple.emit_table table_data)) <= 5
  /\ Forall (fun row => length row <= 3)
            (rows_drawn (Simple.emit_table table_data)).
Proof.
  assert (E : rows_drawn (Simple.emit_table table_data)
              = map cells_of_row (firstn 5 table_data)).
  { destruct table_data as [|r rows]; [reflexivity|].
    unfold Simple.emit_table, rows_drawn. cbn [rows_drawn_from].
    apply rows_drawn_rows. }
  rewrite E. split; [reflexivity|]. split.
  - rewrite length_map, length_firstn. lia.
  - apply Forall_map, Forall_forall. intros row _.
    unfold cells_of_row. rewrite length_map, length_firstn. lia.
Qed.

(** ** Inline emphasis *)

Lemma split_nonempty (sep s : str) :
  sep <> [] -> split sep s = hd [] (split sep s) :: tl (split sep s).
Proof.
  intros Hsep. rewrite split_eq by assumption.
  now destruct (partition sep s) as [[b a]|].
Qed.

Lemma concat_split_bounded (sep : str) (n : nat) :
  sep <> [] ->
  forall s, length s <= n -> concat (split sep s) = replace sep [] s.
Proof.
  intros Hsep. induction n as [|n IH]; intros s Hn.
  - destruct s; [|simpl in Hn; lia].
    now rewrite split_nil, replace_nil by assumption.
  - destruct s as [|c s].
    + now rewrite split_nil, replace_nil by assumption.
    + destruct (startswith sep (c :: s)) eqn:E.
      * rewrite split_hit, replace_hit by assumption. cbn [concat app].
        apply IH. rewrite length_skipn. destruct sep; [congruence|].
        simpl in *. lia.
      * rewrite split_miss, replace_miss by assumption. cbn [concat app].
        f_equal. rewrite <- IH by (simpl in Hn; lia).
        rewrite (split_nonempty sep s Hsep) at 3. reflexivity.
Qed.

(** The parts of a split put together again are the text without the
    separator. *)
Lemma concat_split (sep s : str) :
  sep <> [] -> concat (split sep s) = replace sep [] s.
Proof. intros H. now apply (concat_split_bounded sep (length s) H). Qed.

Lemma span_texts_from (l : list str) : forall a,
  concat (map snd
            (flat_map (fun '(j, part) =>
                         if truthy part then [(Nat.odd j, part)] else [])
                      (combine (seq a (length l)) l)))
  = concat l.
Proof.
  induction l as [|part l IH]; intros a; [reflexivity|].
  cbn [length seq combine flat_map]. rewrite map_app, concat_app, IH.
  destruct part as [|c part]; cbn [truthy map snd concat app];
    [reflexivity|]. now rewrite app_nil_r.
Qed.

(** Direct-layout variant: a paragraph line with [**] is written without
    its delimiters and with nothing else missing: the spans written, put
    together, are the line with every [**] taken out. *)
Theorem inline_text_kept (st : Simple.loop_state) (line : str) :
  active st line = true ->
  Simple.in_code_block st = false -> Simple.in_table st = false ->
  is_fence line = false -> is_separator line = false ->
  is_paragraph (Simple.clean_emojis line) = true ->
  contains (utf8 "**") (Simple.clean_emojis line) = true ->
  concat (map snd (spans_written (snd (Simple.loop_body st line))))
  = replace (utf8 "**") [] (Simple.clean_emojis line).
Proof.
  intros Ha Hc Ht Hf Hs Hp Hb.
  rewrite loop_body_plain by assumption. cbn [snd].
  rewrite emit_line_paragraph, Hb by assumption.
  rewrite spans_written_inline. unfold spans_of_parts, enumerate.
  rewrite span_texts_from. apply concat_split. discriminate.
Qed.

Lemma inline_text_kept_witness :
  concat (map snd (spans_written
                     (snd (Simple.loop_body started (utf8 "a **b** c ✅")))))
  = replace (utf8 "**") [] (Simple.clean_emojis (utf8 "a **b** c ✅")).
Proof.
  apply (inline_text_kept started (utf8 "a **b** c ✅")); by_compute.
Defined.

(** ** Headings in the HTML variant *)

(** HTML variant: the heading adjustment is not idempotent.  Applied again
    to its own result it takes a heading one more level up, down to the
    first level, where it leaves it. *)
Theorem heading_adjusted_again (text : str) :
  Html.adjust_heading (Html.adjust_heading (utf8 "#### " ++ text))
    = utf8 "## " ++ text
  /\ Html.adjust_heading (Html.adjust_heading (utf8 "### " ++ text))
     = utf8 "# " ++ text
  /\ Html.adjust_heading (Html.adjust_heading (utf8 "## " ++ text))
     = utf8 "# " ++ text.
Proof. repeat split; reflexivity. Qed.

(** ** [clean_text] *)

Lemma apply_rules_other rules : Forall rule_ok rules -> forall c,
  ~ In c (flat_map fst rules) -> apply_rules rules [c] = [c].
Proof.
  induction 1 as [|[old new] rules (k & E & _) H IH]; intros c Hc;
    [reflexivity|].
  cbn [fst] in E. subst old. cbn [apply_rules fold_left].
  cbn [flat_map fst app] in Hc.
  rewrite replace_char. cbn [flat_map app].
  destruct (char_eqb k c) eqn:Ek.
  - apply char_eqb_eq in Ek. exfalso. apply Hc. now left.
  - apply IH. intro Hin. apply Hc. now right.
Qed.

Lemma clean_text_other c :
  ~ In c replaced_points -> Simple.clean_text [c] = [c].
Proof.
  intros H. rewrite (clean_text_rules [c]).
  now apply (apply_rules_other _ replacements_ok).
Qed.

Lemma clean_text_cons c s :
  Simple.clean_text (c :: s) = Simple.clean_text [c] ++ Simple.clean_text s.
Proof. apply (clean_text_app [c] s). Qed.

Lemma clean_text_nil : Simple.clean_text [] = [].
Proof. by_compute. Qed.

Lemma replaced_point_image k :
  In k replaced_points ->
  Forall (fun c => ~ In c replaced_points) (Simple.clean_text [k]).
Proof.
  intros H. vm_compute in H.
  repeat (destruct H as [<-|H];
          [evaluated_list;
           repeat (apply Forall_cons; [vm_compute; intuition discriminate|]);
           apply Forall_nil|]).
  contradiction.
Qed.

Lemma replaced_point_dec c :
  {In c replaced_points} + {~ In c replaced_points}.
Proof. apply (in_dec N.eq_dec). Qed.

Lemma clean_text_clean s :
  Forall (fun c => ~ In c replaced_points) (Simple.clean_text s).
Proof.
  induction s as [|c s IH]; [rewrite clean_text_nil; constructor|].
  rewrite clean_text_cons. apply Forall_app. split; [|exact IH].
  destruct (replaced_point_dec c) as [Hc|Hc].
  - now apply replaced_point_image.
  - rewrite clean_text_other by assumption. now constructor.
Qed.

Lemma clean_text_fixed s :
  Forall (fun c => ~ In c replaced_points) s -> Simple.clean_text s = s.
Proof.
  induction 1 as [|c s Hc H IH]; [apply clean_text_nil|].
  now rewrite clean_text_cons, clean_text_other, IH.
Qed.

(** Whatever the text, none of the 28 code points of the replacement table
    is left after [clean_text]: no replacement brings back a code point
    the table replaces. *)
Theorem clean_text_leaves_none (text : str) :
  Forall (fun c => ~ In c replaced_points) (Simple.clean_text text).
Proof. apply clean_text_clean. Qed.

(** A text that holds none of the 28 code points, plain ASCII for one, is
    left as it is. *)
Theorem clean_text_keeps_plain (text : str) :
  Forall (fun c => ~ In c replaced_points) text ->
  Simple.clean_text text = text.
Proof. apply clean_text_fixed. Qed.

Lemma clean_text_keeps_plain_witness :
  Simple.clean_text (utf8 "x <= y") = utf8 "x <= y".
Proof.
  apply clean_text_keeps_plain. evaluated_list.
  repeat (apply Forall_cons; [vm_compute; intuition discriminate|]).
  apply Forall_nil.
Defined.

(** Cleaning a cleaned text changes nothing. *)
Theorem clean_text_idempotent (text : str) :
  Simple.clean_text (Simple.clean_text text) = Simple.clean_text text.
Proof. apply clean_text_fixed, clean_text_clean. Qed.

(** [clean_text] works line by line: it neither joins nor cuts lines, and
    the cleaned document, split into lines, is made of the cleaned lines of
    the document.  (The metadata scan and the body loop therefore see the
    lines of the source, cleaned, at the same positions.) *)
Theorem clean_text_line_by_line (content : str) :
  length (split nl (Simple.clean_text content)) = length (split nl content)
  /\ forall i,
       nth i (split nl (Simple.clean_text content)) []
       = Simple.clean_text (nth i (split nl content) []).
Proof.
  rewrite (clean_text_lines content). split; [apply length_map|].
  intros i. rewrite <- clean_text_nil at 1. apply map_nth.
Qed.

(** ** What is left of the glyphs *)

Lemma In_skipn_In {A} (x : A) n (l : list A) : In x (skipn n l) -> In x l.
Proof.
  intros H. rewrite <- (firstn_skipn n l). apply in_or_app. now right.
Qed.

Lemma replace_In_bounded (old new : str) (c : char) (n : nat) :
  old <> [] ->
  forall s, length s <= n ->
  In c (replace old new s) -> In c s \/ In c new.
Proof.
  intros Hold. induction n as [|n IH]; intros s Hn H.
  - destruct s; [|simpl in Hn; lia].
    rewrite replace_nil in H by assumption. contradiction.
  - destruct s as [|x s].
    + rewrite replace_nil in H by assumption. contradiction.
    + destruct (startswith old (x :: s)) eqn:E.
      * rewrite replace_hit in H by assumption.
        apply in_app_or in H as [H|H]; [now right|].
        apply IH in H.
        -- destruct H as [H|H]; [left|now right].
           now apply In_skipn_In in H.
        -- rewrite length_skipn. destruct old; [congruence|].
           simpl in *. lia.
      * rewrite replace_miss in H by assumption.
        destruct H as [->|H]; [left; now left|].
        apply IH in H; [|simpl in Hn; lia].
        destruct H as [H|H]; [left; now right|now right].
Qed.

(** [replace] brings in no code point that is neither in the text nor in
    the replacement. *)
Lemma replace_In (old new s : str) (c : char) :
  old <> [] -> In c (replace old new s) -> In c s \/ In c new.
Proof. intros H. now apply (replace_In_bounded old new c (length s) H). Qed.

Lemma replace_char_gone (c : char) (new s : str) :
  ~ In c new -> ~ In c (replace [c] new s).
Proof.
  intros Hnew H. rewrite replace_char in H.
  apply in_flat_map in H as (x & Hx & H).
  destruct (char_eqb c x) eqn:E; [contradiction|].
  destruct H as [<-|[]]. now rewrite char_eqb_refl in E.
Qed.

Lemma re_sub_class_gone (cls s : str) (g : char) :
  In g cls -> ~ In g (re_sub_class cls [] s).
Proof.
  intros Hg H. unfold re_sub_class in H.
  apply in_flat_map in H as (x & Hx & H).
  destruct (existsb (char_eqb x) cls) eqn:E; [contradiction|].
  destruct H as [<-|[]].
  assert (F : existsb (char_eqb x) cls = true).
  { apply existsb_exists. exists x. split; [assumption|apply char_eqb_refl]. }
  congruence.
Qed.

Lemma replace_keeps_out (old new s : str) (c : char) :
  old <> [] -> ~ In c new -> ~ In c s -> ~ In c (replace old new s).
Proof.
  intros Hold Hnew Hs H. apply replace_In in H; [|assumption]. tauto.
Qed.

Ltac literal_glyphs :=
  change (utf8 "🎯") with [127919%N];
  change (utf8 "📚") with [128218%N];
  change (utf8 "🐍") with [128013%N];
  change (utf8 "🔍") with [128269%N];
  change (utf8 "📊") with [128202%N];
  change (utf8 "🛠️") with [128736%N; 65039%N];
  change (utf8 "🔬") with [128300%N];
  change (utf8 "🔄") with [128260%N];
  change (utf8 "📝") with [128221%N];
  change (utf8 "🔗") with [128279%N];
  change (utf8 "💭") with [128173%N];
  change (utf8 "✅") with [9989%N];
  change (utf8 "❌") with [10060%N];
  change (utf8 "[Sí]") with [91%N; 83%N; 237%N; 93%N];
  change (utf8 "[No]") with [91%N; 78%N; 111%N; 93%N].

(** Goes through the calls of [replace] from the last one to the first,
    down to the call that takes the code point out. *)
Ltac peel_replace :=
  repeat lazymatch goal with
  | |- ~ In ?g (replace (?g' :: nil) ?new ?s) =>
      first [ constr_eq g g'; apply (replace_char_gone g new s);
              vm_compute; intuition discriminate
            | apply (replace_keeps_out [g'] new s g);
              [ discriminate | vm_compute; intuition discriminate | ] ]
  | |- ~ In ?g (replace ?old ?new ?s) =>
      apply (replace_keeps_out old new s g);
      [ discriminate | vm_compute; intuition discriminate | ]
  end.

Lemma single_glyph_gone_html (g : char) (line : str) :
  In g single_glyphs -> ~ In g (Html.emoji_to_text line).
Proof.
  intros Hg. unfold Html.emoji_to_text. cbv zeta.
  literal_glyphs. vm_compute in Hg.
  repeat (destruct Hg as [<-|Hg]; [solve [peel_replace]|]).
  contradiction.
Qed.

(** After the glyph substitution of either variant a line holds none of the
    glyphs of a single code point, wherever and however often they stood in
    it; in the direct-layout variant it holds no code point of the class at
    all. *)
Theorem no_glyph_left (line : str) :
  Forall (fun g => ~ In g (Html.emoji_to_text line)) single_glyphs
  /\ Forall (fun g => ~ In g (Simple.clean_emojis line)) Simple.emoji_class.
Proof.
  split; apply Forall_forall; intros g Hg.
  - now apply single_glyph_gone_html.
  - now apply re_sub_class_gone.
Qed.

(** ** Lines in, lines out *)

Lemma split_char_parts (c : char) (s : str) :
  Forall (fun l => ~ In c l) (split [c] s).
Proof.
  assert (Hsep : [c] <> []) by discriminate.
  induction s as [|x s IH].
  - rewrite split_nil by assumption. constructor; [tauto|constructor].
  - destruct (startswith [c] (x :: s)) eqn:E.
    + rewrite split_hit by assumption. constructor; [tauto|exact IH].
    + rewrite split_miss by assumption.
      rewrite (split_nonempty [c] s Hsep) in IH.
      apply Forall_cons_iff in IH as [Hh Ht].
      constructor; [|exact Ht].
      intros [->|H]; [|now apply Hh].
      cbn [startswith] in E. now rewrite char_eqb_refl in E.
Qed.

Lemma split_join_char (c : char) (ls : list str) :
  ls <> [] -> Forall (fun l => ~ In c l) ls -> split [c] (join [c] ls) = ls.
Proof.
  induction ls as [|l ls IH]; intros Hne H; [congruence|].
  apply Forall_cons_iff in H as [Hl Hls].
  destruct ls as [|l' ls].
  - cbn [join]. now apply split_char_none.
  - change (join [c] (l :: l' :: ls)) with (l ++ c :: join [c] (l' :: ls)).
    rewrite split_char_app by assumption.
    now rewrite IH by (assumption || discriminate).
Qed.

Lemma skipn_length_app {A} (a b : list A) : skipn (length a) (a ++ b) = b.
Proof. induction a as [|x a IH]; [reflexivity|exact IH]. Qed.

Lemma emoji_to_text_no_feed (line : str) :
  ~ In line_feed line -> ~ In line_feed (Html.emoji_to_text line).
Proof.
  intros H. unfold Html.emoji_to_text. cbv zeta. literal_glyphs.
  peel_replace. exact H.
Qed.

Lemma adjust_heading_no_feed (line : str) :
  ~ In line_feed line -> ~ In line_feed (Html.adjust_heading line).
Proof.
  intros H. unfold Html.adjust_heading.
  repeat match goal with
         | |- context [if ?b then _ else _] => destruct b
         end; try exact H;
    (intros Hin; apply in_app_or in Hin as [Hin|Hin];
     [vm_compute in Hin; intuition discriminate
     |apply H; now apply In_skipn_In in Hin]).
Qed.

Lemma transform_no_feed (line : str) :
  ~ In line_feed line -> ~ In line_feed (transform line).
Proof.
  intros H. now apply adjust_heading_no_feed, emoji_to_text_no_feed.
Qed.

(** HTML variant: the rewriting is line by line.  From the marker line on,
    the body of the markup has exactly one line for each line of the
    document, in the same order, and it is that line after the glyph
    substitution and the heading adjustment: no line is merged, split or
    dropped. *)
Theorem html_body_line_by_line (content : str)
    (pre : list str) (marker_line : str) (rest : list str) :
  split nl content = pre ++ marker_line :: rest ->
  Forall (fun l => html_marker l = false) pre ->
  html_marker marker_line = true ->
  split nl
    (skipn (length (Html.apa_content (extract_metadata HtmlCss content)))
           (Html.process_markdown_for_apa content))
  = map transform (marker_line :: rest).
Proof.
  intros Hlines Hpre Hm.
  rewrite (html_body_from_marker content pre marker_line rest Hlines Hpre Hm).
  rewrite (skipn_length_app (Html.apa_content _) _).
  apply (split_join_char line_feed); [discriminate|].
  pose proof (split_char_parts line_feed content) as F.
  change [line_feed] with nl in F. rewrite Hlines in F.
  apply Forall_app in F as [_ F].
  apply Forall_map. revert F. apply Forall_impl.
  intros l. apply transform_no_feed.
Qed.

Lemma html_body_line_by_line_witness :
  split nl
    (skipn (length (Html.apa_content (extract_metadata HtmlCss marker_doc)))
           (Html.process_markdown_for_apa marker_doc))
  = map transform (skipn 2 (split nl marker_doc)).
Proof.
  apply (html_body_line_by_line marker_doc
           (firstn 2 (split nl marker_doc))
           (nth 2 (split nl marker_doc) [])
           (skipn 3 (split nl marker_doc))).
  - by_compute.
  - evaluated_list. forall_by_compute.
  - by_compute.
Defined.

(** ** Rows without outer pipes *)

(** Direct-layout variant: what a row has before its first pipe and after
    its last one is never drawn.  A row written without the outer pipes
    therefore loses its first and its last cell. *)
Theorem outer_cells_not_drawn (first_ last_ : str) (cells : list str) :
  Forall (fun c => ~ In pipe c) (first_ :: cells ++ [last_]) ->
  Simple.emit_row (join [pipe] (first_ :: cells ++ [last_]))
  = map (fun c => cell 60 8 (firstn 20 (strip c)) 1 0 "C") (firstn 3 cells)
    ++ [ln None].
Proof.
  intros H. unfold Simple.emit_row. cbv zeta.
  change (utf8 "|") with [pipe].
  rewrite split_join_char by (assumption || discriminate).
  change (tl (first_ :: cells ++ [last_])) with (cells ++ [last_]).
  rewrite removelast_last, <- firstn_map, map_map.
  now rewrite firstn_map.
Qed.

Lemma outer_cells_not_drawn_witness :
  Simple.emit_row (utf8 "a | b | c")
  = [cell 60 8 (utf8 "b") 1 0 "C"; ln None].
Proof.
  assert (H : Forall (fun c => ~ In pipe c)
                     (utf8 "a " :: [utf8 " b "] ++ [utf8 " c"])).
  { repeat (apply Forall_cons; [vm_compute; intuition discriminate|]).
    apply Forall_nil. }
  pose proof (outer_cells_not_drawn (utf8 "a ") (utf8 " c") [utf8 " b "] H)
    as E.
  vm_compute in E. vm_compute. exact E.
Defined.
